(** * pyTranscriber REST API server: job lifecycle

    A shallow embedding of [api_server.py]: the job record, the job
    registry [transcription_jobs], the request handlers, the worker thread
    [process_transcription_job] with its two engine adapters, the progress
    callback and the [/cleanup] sweep, followed by the properties of the
    job lifecycle proved on that embedding.

    Conventions.
    - Python [str] values are Rocq [string]s holding the UTF-8 encoding
      of the text, one byte per character of the Rocq string. Every
      character the code splits or joins at (the dot, the slash, the
      underscore) is ASCII, and an ASCII byte never occurs inside the
      encoding of another character, so splitting and joining bytes is
      splitting and joining text.
    - [datetime] values are integers counting microseconds, so that
      [(a - b).total_seconds() > h * 3600] is the integer comparison
      [a - b > h * 3600 * 10^6].
    - Python objects that are shared between the registry and a worker
      thread live in an explicit heap of job objects; the registry maps a
      job id to the address of its object.
    - What a [raise] throws is a value of type [exn], which records
      whether the object is an instance of [Exception] or only of
      [BaseException] ([SystemExit], [KeyboardInterrupt], [GeneratorExit]);
      code that can raise returns [exn + A], and [except Exception] lets
      the second kind through. *)

From Stdlib Require Import ZArith String Ascii List Lia.
From Stdlib Require Import DecimalString DecimalNat Decimal.
From stdpp Require Import base option list gmap strings fin_maps.

Local Open Scope string_scope.
Local Open Scope Z_scope.

(** ** Strings *)

Module Str.

(** [c.lower()] on one ASCII character. *)
Definition lower_ascii (c : ascii) : ascii :=
  let n := nat_of_ascii c in
  if (Nat.leb 65 n && Nat.leb n 90)%bool then ascii_of_nat (n + 32) else c.

(** The three bytes [c1 c2 c3] encode U+212A KELVIN SIGN. *)
Definition is_kelvin (c1 c2 c3 : ascii) : bool :=
  (Nat.eqb (nat_of_ascii c1) 226 && Nat.eqb (nat_of_ascii c2) 132
   && Nat.eqb (nat_of_ascii c3) 170)%bool.

(** [s.lower()]. The letters A-Z go to a-z, and U+212A KELVIN SIGN goes
    to the letter k: it is the one character outside ASCII whose lower
    case is made of ASCII characters only. The lower case of every other
    character outside ASCII holds a character outside ASCII (that of
    U+0130 is an i followed by U+0307); the bytes of these characters are
    left as they are here. So [lower s] is [s.lower()] whenever one of the
    two is ASCII text, and neither is ASCII text otherwise: the code
    compares the results with ASCII literals only (the extensions and the
    engine names). *)
Fixpoint lower (s : string) : string :=
  match s with
  | EmptyString => EmptyString
  | String c t =>
      match t with
      | String c2 (String c3 t3) =>
          if is_kelvin c c2 c3 then String "k" (lower t3)
          else String (lower_ascii c) (lower t)
      | _ => String (lower_ascii c) (lower t)
      end
  end.

Definition upper_ascii (c : ascii) : ascii :=
  let n := nat_of_ascii c in
  if (Nat.leb 97 n && Nat.leb n 122)%bool then ascii_of_nat (n - 32) else c.

(** [s.upper()] for ASCII text: the code calls it on [srt] and [txt]
    only. *)
Fixpoint upper (s : string) : string :=
  match s with
  | EmptyString => EmptyString
  | String c t => String (upper_ascii c) (upper t)
  end.

(** [s.rsplit(c, 1)] when [c in s]: the text before and after the last
    occurrence of [c]; [None] when [s] has no [c]. *)
Fixpoint rsplit1 (c : ascii) (s : string) : option (string * string) :=
  match s with
  | EmptyString => None
  | String d t =>
      match rsplit1 c t with
      | Some (a, b) => Some (String d a, b)
      | None => if Ascii.eqb d c then Some (EmptyString, t) else None
      end
  end.

(** [s[:n]]. *)
Fixpoint take (n : nat) (s : string) : string :=
  match n, s with
  | O, _ => EmptyString
  | S _, EmptyString => EmptyString
  | S k, String c t => String c (take k t)
  end.

(** [sep.join(l)]. *)
Fixpoint join (sep : string) (l : list string) : string :=
  match l with
  | [] => ""
  | [x] => x
  | x :: t => x ++ sep ++ join sep t
  end.

(** [f"{n}"] for a non-negative [int]. *)
Definition dec (n : nat) : string := NilEmpty.string_of_uint (Nat.to_uint n).

(** No character of [s] is [c]. *)
Fixpoint lacks (c : ascii) (s : string) : Prop :=
  match s with
  | EmptyString => True
  | String d t => d <> c /\ lacks c t
  end.

End Str.

(** ** Paths and the file system *)

(** [os.path.join(a, b)] for a relative [b]. *)
Definition path_join (a b : string) : string := a ++ "/" ++ b.

(** One directory entry: its change time ([os.path.getctime]) and whether
    [os.remove] succeeds on it (it raises on directories and on entries
    the process may not unlink). *)
Record entry := Entry { ctime : Z; removable : bool }.

(** The file system, keyed by path. *)
Abbreviation disk := (gmap string entry).

(** [os.path.exists(p)]. *)
Definition path_exists (d : disk) (p : string) : bool := bool_decide (is_Some (d !! p)).

(** [s[len(pre):]] when [s.startswith(pre)]. *)
Fixpoint strip_prefix (pre s : string) : option string :=
  match pre, s with
  | EmptyString, _ => Some s
  | String a p, String b t => if Ascii.eqb a b then strip_prefix p t else None
  | String _ _, EmptyString => None
  end.

(** [c in s]. *)
Fixpoint has_char (c : ascii) (s : string) : bool :=
  match s with
  | EmptyString => false
  | String d t => Ascii.eqb d c || has_char c t
  end.

(** [p] is [os.path.join(folder, name)] for a non-empty [name] without
    separator: the shape of the paths of the entries that
    [os.listdir(folder)] names. *)
Definition in_folder (folder p : string) : bool :=
  match strip_prefix (folder ++ "/") p with
  | Some name => negb (String.eqb name "") && negb (has_char "/" name)
  | None => false
  end.

(** ** Configuration *)

Definition UPLOAD_FOLDER : string := "uploads".
Definition OUTPUT_FOLDER : string := "outputs".

Definition ALLOWED_audio : gset string :=
  list_to_set ["mp3"; "wav"; "m4a"; "flac"; "ogg"; "aac"].
Definition ALLOWED_video : gset string :=
  list_to_set ["mp4"; "avi"; "mkv"; "mov"; "wmv"; "flv"; "webm"; "ogv"].

(** [allowed_file]: the extension is the lower-cased text after the last
    dot, or the empty string when the name has no dot. *)
Definition file_ext (filename : string) : string :=
  match Str.rsplit1 "." filename with
  | Some (_, e) => Str.lower e
  | None => ""
  end.

Definition allowed_file (filename : string) : bool :=
  bool_decide (file_ext filename ∈ ALLOWED_audio)
  || bool_decide (file_ext filename ∈ ALLOWED_video).

(** [Path(p).name]: the last path component. *)
Definition path_name (p : string) : string :=
  match Str.rsplit1 "/" p with
  | Some (_, n) => n
  | None => p
  end.

(** [Path(p).stem]: the name without its last suffix; a leading or a
    trailing dot does not start a suffix. *)
Definition path_stem (p : string) : string :=
  let name := path_name p in
  match Str.rsplit1 "." name with
  | Some (a, b) => if String.eqb a "" || String.eqb b "" then name else a
  | None => name
  end.

(** ** Exceptions and the state-and-exception monad *)

(** What a [raise] throws, with [str(e)] and [traceback.format_exc()]:
    an instance of [Exception], or an instance of [BaseException] that is
    not one ([SystemExit], [KeyboardInterrupt], [GeneratorExit]). *)
Inductive exn :=
| Exn (str traceback : string)
| BaseExn (str traceback : string).

Definition exn_str (e : exn) : string :=
  match e with Exn s _ | BaseExn s _ => s end.
Definition exn_traceback (e : exn) : string :=
  match e with Exn _ t | BaseExn _ t => t end.

(** [isinstance(e, Exception)]. *)
Definition is_exception (e : exn) : bool :=
  match e with Exn _ _ => true | BaseExn _ _ => false end.

Section Monad.
Context {S : Type}.

(** A computation over a mutable state [S] that returns or raises; the
    state changes made before a raise persist. *)
Definition M (A : Type) : Type := S -> S * (exn + A).

Definition ret {A} (a : A) : M A := fun s => (s, inr a).
Definition raise {A} (e : exn) : M A := fun s => (s, inl e).
Definition bind {A B} (c : M A) (k : A -> M B) : M B :=
  fun s => match c s with
           | (s', inr a) => k a s'
           | (s', inl e) => (s', inl e)
           end.
(** [try: c  except Exception as e: h e]: what is not an [Exception]
    passes through. *)
Definition try_except {A} (c : M A) (h : exn -> M A) : M A :=
  fun s => match c s with
           | (s', inl e) => if is_exception e then h e s' else (s', inl e)
           | r => r
           end.
Definition get : M S := fun s => (s, inr s).
Definition modify (f : S -> S) : M unit := fun s => (f s, inr tt).

End Monad.
Arguments M : clear implicits.

Declare Scope py_scope.
Delimit Scope py_scope with py.
Notation "x <- c ;; k" := (bind c (fun x => k))
  (at level 100, c at next level, right associativity) : py_scope.
Notation "c ;; k" := (bind c (fun _ => k))
  (at level 100, right associativity) : py_scope.
Local Open Scope py_scope.

(** [for x in l: body x acc], threading an accumulator. *)
Fixpoint for_each {S A B} (l : list A) (body : A -> B -> M S B) (acc : B) : M S B :=
  match l with
  | [] => ret acc
  | x :: t => acc' <- body x acc ;; for_each t body acc'
  end.

(** [os.remove(p)]. *)
Definition os_remove (p : string) : M disk unit :=
  fun d => match d !! p with
           | Some e => if removable e then (delete p d, inr tt)
                       else (d, inl (Exn "Operation not permitted" ""))
           | None => (d, inl (Exn "No such file or directory" ""))
           end.

(** [os.path.getctime(p)]. *)
Definition os_getctime (p : string) : M disk Z :=
  fun d => match d !! p with
           | Some e => (d, inr (ctime e))
           | None => (d, inl (Exn "No such file or directory" ""))
           end.

(** [os.listdir(folder)]: the names directly inside [folder]. The two
    folders the code lists are created when the module is loaded and are
    taken to be there. *)
Definition listdir (d : disk) (folder : string) : list string :=
  omap (fun p => match strip_prefix (folder ++ "/") p with
                 | Some name => if in_folder folder p then Some name else None
                 | None => None
                 end) (elements (dom d)).

(** ** Values returned by the engines *)

(** What [generate_subtitles] may hand back: the code only compares the
    result with [-1] and tests its truth value. *)
Inductive pyval :=
| PyNone
| PyBool (b : bool)
| PyInt (z : Z)
| PyStr (s : string).

(** [v == -1]. *)
Definition py_is_minus_one (v : pyval) : bool :=
  match v with
  | PyInt z => Z.eqb z (-1)
  | _ => false
  end.

(** [bool(v)]. *)
Definition py_truth (v : pyval) : bool :=
  match v with
  | PyNone => false
  | PyBool b => b
  | PyInt z => negb (Z.eqb z 0)
  | PyStr s => negb (String.eqb s "")
  end.

(** The external collaborators ([Ctr_Autosub], [CtrWhisper], [SRTParser])
    as computations on the file system that return or raise. Their
    progress reports are separate steps of the server (see [OpReport]). *)
Record backends := Backends {
  Ctr_Autosub_init : M disk unit;
  (* source_path, output, src_language *)
  Ctr_Autosub_generate_subtitles : string -> string -> string -> M disk pyval;
  SRTParser_extractTextFromSRT : string -> M disk unit;
  CtrWhisper_initialize : M disk unit;
  (* source_path, src_language, outputSRT, outputTXT, model *)
  CtrWhisper_generate_subtitles :
    string -> string -> string -> string -> string -> M disk pyval
}.

(** ** The job record *)

Inductive job_status := pending | processing | completed | failed.

Definition status_name (s : job_status) : string :=
  match s with
  | pending => "pending"
  | processing => "processing"
  | completed => "completed"
  | failed => "failed"
  end.

#[global] Instance job_status_eq_dec : EqDecision job_status.
Proof. solve_decision. Defined.

Record TranscriptionJob := Job {
  job_id : string;
  filename : string;
  engine : string;
  language : string;
  status : job_status;
  progress : Z;
  start_time : Z;
  end_time : option Z;
  error_message : option string;
  output_files : gmap string string
}.

(** [TranscriptionJob.__init__]. *)
Definition new_job (id file eng lang : string) (now : Z) : TranscriptionJob :=
  Job id file eng lang pending 0 now None None ∅.

Definition set_status (v : job_status) (j : TranscriptionJob) : TranscriptionJob :=
  Job (job_id j) (filename j) (engine j) (language j) v (progress j)
      (start_time j) (end_time j) (error_message j) (output_files j).
Definition set_progress (v : Z) (j : TranscriptionJob) : TranscriptionJob :=
  Job (job_id j) (filename j) (engine j) (language j) (status j) v
      (start_time j) (end_time j) (error_message j) (output_files j).
Definition set_end_time (v : option Z) (j : TranscriptionJob) : TranscriptionJob :=
  Job (job_id j) (filename j) (engine j) (language j) (status j) (progress j)
      (start_time j) v (error_message j) (output_files j).
Definition set_error_message (v : option string) (j : TranscriptionJob)
  : TranscriptionJob :=
  Job (job_id j) (filename j) (engine j) (language j) (status j) (progress j)
      (start_time j) (end_time j) v (output_files j).
Definition set_output_files (v : gmap string string) (j : TranscriptionJob)
  : TranscriptionJob :=
  Job (job_id j) (filename j) (engine j) (language j) (status j) (progress j)
      (start_time j) (end_time j) (error_message j) v.

(** [TranscriptionJob.to_dict]. *)
Record job_dict := JobDict {
  d_job_id : string;
  d_filename : string;
  d_engine : string;
  d_language : string;
  d_status : string;
  d_progress : Z;
  d_start_time : Z;
  d_end_time : option Z;
  d_error_message : option string;
  d_output_files : gmap string string
}.

Definition to_dict (j : TranscriptionJob) : job_dict :=
  JobDict (job_id j) (filename j) (engine j) (language j) (status_name (status j))
          (progress j) (start_time j) (end_time j) (error_message j) (output_files j).

(** ** The engine adapters *)

Definition nl : string := String (ascii_of_nat 10) EmptyString.

(** The mapping returned on success. *)
Definition outputs_of (output_srt output_txt : string) : gmap string string :=
  <["srt_file" := output_srt]> (<["txt_file" := output_txt]> ∅).

Definition transcribe_with_autosub (b : backends) (file_path language job_id : string)
  : M disk (bool * string * gmap string string) :=
  try_except
    (let base_name := path_stem file_path in
     let output_srt := path_join OUTPUT_FOLDER (base_name ++ ".srt") in
     let output_txt := path_join OUTPUT_FOLDER (base_name ++ ".txt") in
     Ctr_Autosub_init b ;;
     result <- Ctr_Autosub_generate_subtitles b file_path output_srt language ;;
     if py_is_minus_one result then
       ret (false, "Transcription was cancelled", ∅)
     else if negb (py_truth result) then
       ret (false, "Failed to generate subtitles", ∅)
     else
       (SRTParser_extractTextFromSRT b output_srt ;;
        d <- get ;;
        if negb (path_exists d output_srt) then
          ret (false, "SRT file was not created", ∅)
        else if negb (path_exists d output_txt) then
          ret (false, "TXT file was not created", ∅)
        else
          ret (true, "Transcription completed successfully",
               outputs_of output_srt output_txt)))
    (fun e =>
       ret (false,
            "Autosub transcription failed: " ++ exn_str e ++ nl ++ exn_traceback e,
            ∅)).

Definition transcribe_with_whisper (b : backends)
    (file_path language job_id model : string)
  : M disk (bool * string * gmap string string) :=
  try_except
    (CtrWhisper_initialize b ;;
     let base_name := path_stem file_path in
     let output_srt := path_join OUTPUT_FOLDER (base_name ++ ".srt") in
     let output_txt := path_join OUTPUT_FOLDER (base_name ++ ".txt") in
     result <- CtrWhisper_generate_subtitles b file_path language
                 output_srt output_txt model ;;
     if py_is_minus_one result then
       ret (false, "Transcription was cancelled", ∅)
     else if negb (py_truth result) then
       ret (false, "Failed to generate subtitles", ∅)
     else
       (d <- get ;;
        if negb (path_exists d output_srt) then
          ret (false, "SRT file was not created", ∅)
        else if negb (path_exists d output_txt) then
          ret (false, "TXT file was not created", ∅)
        else
          ret (true, "Transcription completed successfully",
               outputs_of output_srt output_txt)))
    (fun e =>
       ret (false,
            "Whisper transcription failed: " ++ exn_str e ++ nl ++ exn_traceback e,
            ∅)).

(** ** The server state *)

(** A worker thread started by [transcribe_file] with
    [target=process_transcription_job, args=(job_id,)]: not yet scheduled,
    inside the [try] block with its local [job] bound to an object, or
    ended (returned, or ended by a raise that nothing caught). *)
Inductive worker :=
| Spawned (id : string)
| Running (id : string) (job : nat)
| Finished (id : string).

Definition worker_id (w : worker) : string :=
  match w with
  | Spawned id | Running id _ | Finished id => id
  end.

Record server := Server {
  objects : gmap nat TranscriptionJob;      (* the job objects, by address *)
  transcription_jobs : gmap string nat;     (* the global registry *)
  job_counter : nat;
  files : disk;
  workers : list worker
}.

Definition initial : server := Server ∅ ∅ 0%nat ∅ [].

Definition with_objects (f : gmap nat TranscriptionJob -> gmap nat TranscriptionJob)
    (st : server) : server :=
  Server (f (objects st)) (transcription_jobs st) (job_counter st) (files st) (workers st).
Definition with_jobs (f : gmap string nat -> gmap string nat) (st : server) : server :=
  Server (objects st) (f (transcription_jobs st)) (job_counter st) (files st) (workers st).
Definition with_counter (c : nat) (st : server) : server :=
  Server (objects st) (transcription_jobs st) c (files st) (workers st).
Definition with_files (d : disk) (st : server) : server :=
  Server (objects st) (transcription_jobs st) (job_counter st) d (workers st).
Definition with_workers (f : list worker -> list worker) (st : server) : server :=
  Server (objects st) (transcription_jobs st) (job_counter st) (files st) (f (workers st)).

(** Run a file-system computation inside the server. *)
Definition on_disk {A} (c : M disk A) : M server A :=
  fun st => let (d, r) := c (files st) in (with_files d st, r).

(** [job.f] for the object at address [job]. *)
Definition read {A} (job : nat) (f : TranscriptionJob -> A) : M server A :=
  fun st => match objects st !! job with
            | Some j => (st, inr (f j))
            | None => (st, inl (Exn "dangling object" ""))
            end.

(** [job.f = v] for the object at address [job]. *)
Definition write (job : nat) (upd : TranscriptionJob -> TranscriptionJob) : M server unit :=
  modify (with_objects (alter upd job)).

(** The record registered under an identifier. *)
Definition lookup_job (st : server) (id : string) : option TranscriptionJob :=
  match transcription_jobs st !! id with
  | Some l => objects st !! l
  | None => None
  end.

(** [get_next_job_id]; [uuid_hex] is [uuid.uuid4().hex]. *)
Definition job_name (n : nat) (uuid_hex : string) : string :=
  "job_" ++ Str.dec n ++ "_" ++ Str.take 8 uuid_hex.

Definition get_next_job_id (uuid_hex : string) (st : server) : server * string :=
  let c := S (job_counter st) in
  (with_counter c st, job_name c uuid_hex).

(** [progress_callback(job_id)(task, progress)]. *)
Definition progress_callback (id task : string) (p : Z) : M server unit :=
  st <- get ;;
  match transcription_jobs st !! id with
  | Some l => write l (set_progress p)
  | None => ret tt
  end.

(** ** The worker thread *)

(** [process_transcription_job], up to the [try]: [None] when the
    identifier is not registered (the thread returns), otherwise the
    address bound to the local [job], now marked [processing]. *)
Definition process_begin (id : string) (st : server) : server * option nat :=
  match transcription_jobs st !! id with
  | None => (st, None)
  | Some job => (with_objects (alter (set_status processing) job) st, Some job)
  end.

(** [process_transcription_job], the [try] statement; [now] is the value
    of [datetime.now()]. *)
Definition process_run (b : backends) (now : Z) (id : string) (job : nat)
  : M server unit :=
  try_except
    (eng <- read job engine ;;
     r <- (if String.eqb eng "autosub" then
             (fn <- read job filename ;;
              lang <- read job language ;;
              on_disk (transcribe_with_autosub b fn lang id))
           else if String.eqb eng "whisper" then
             (fn <- read job filename ;;
              lang <- read job language ;;
              on_disk (transcribe_with_whisper b fn lang id "base"))
           else
             ret (false, "Unknown transcription engine: " ++ eng, ∅)) ;;
     let '(success, message, outs) := r in
     write job (set_end_time (Some now)) ;;
     if (success : bool) then
       (write job (set_status completed) ;;
        write job (set_output_files outs) ;;
        write job (set_progress 100))
     else
       (write job (set_status failed) ;;
        write job (set_error_message (Some message))))
    (fun e =>
       write job (set_status failed) ;;
       write job (set_error_message
                    (Some ("Unexpected error: " ++ exn_str e ++ nl ++ exn_traceback e))) ;;
       write job (set_end_time (Some now))).

(** The whole of [process_transcription_job] when nothing else is
    scheduled in between. *)
Definition process_transcription_job (b : backends) (now : Z) (id : string)
  : M server unit :=
  fun st => match process_begin id st with
            | (st1, None) => (st1, inr tt)
            | (st1, Some job) => process_run b now id job st1
            end.

(** ** The request handlers *)

Inductive response :=
| Health (timestamp : Z)
| Error (code : Z) (msg : string)
| Accepted (id : string) (message : string)
| JobInfo (d : job_dict)
| SendFile (path : string)
| JobList (jobs : list job_dict) (total : nat)
| Message (msg : string).

Definition status_code (r : response) : Z :=
  match r with
  | Error code _ => code
  | Accepted _ _ => 202
  | _ => 200
  end.

(** A [POST /transcribe] request, with the values the handler draws from
    its environment while serving it. *)
Record transcribe_request := Request {
  req_file : option string;        (* request.files['file'].filename *)
  req_form : gmap string string;   (* request.form *)
  req_uuid_file : string;          (* uuid.uuid4().hex, stored file name *)
  req_uuid_job : string;           (* uuid.uuid4().hex, job identifier *)
  req_now : Z                      (* datetime.now() *)
}.

(** [request.form.get(key, default)]. *)
Definition form_get (r : transcribe_request) (key default : string) : string :=
  match req_form r !! key with
  | Some v => v
  | None => default
  end.

(** The three form parameters as [transcribe_file] reads them. *)
Definition form_params (r : transcribe_request) : string * string * string :=
  (Str.lower (form_get r "engine" "whisper"),
   form_get r "language" "en",
   form_get r "model" "base").

Definition dq : string := String (ascii_of_nat 34) EmptyString.

Definition health_check (now : Z) (st : server) : server * response :=
  (st, Health now).

Section Server.

(** [werkzeug.utils.secure_filename]. *)
Variable secure_filename : string -> string.

(** [file.save] is taken to succeed. *)
Definition transcribe_file (r : transcribe_request) (st : server) : server * response :=
  match req_file r with
  | None => (st, Error 400 "No file provided")
  | Some fname =>
      if String.eqb fname "" then (st, Error 400 "No file selected")
      else if negb (allowed_file fname) then
        (st, Error 400 ("File type not allowed. Supported formats: "
                        ++ Str.join ", " (elements (ALLOWED_audio ∪ ALLOWED_video))))
      else
        let '(engine, language, model) := form_params r in
        if negb (String.eqb engine "autosub" || String.eqb engine "whisper") then
          (st, Error 400 ("Invalid engine. Use " ++ dq ++ "autosub" ++ dq
                          ++ " or " ++ dq ++ "whisper" ++ dq))
        else
          let filename := secure_filename fname in
          let unique_filename := req_uuid_file r ++ "_" ++ filename in
          let file_path := path_join UPLOAD_FOLDER unique_filename in
          let st1 := with_files (<[file_path := Entry (req_now r) true]> (files st)) st in
          let (st2, id) := get_next_job_id (req_uuid_job r) st1 in
          let job := fresh (dom (objects st2)) in
          let st3 :=
            with_objects (insert job (new_job id file_path engine language (req_now r))) st2 in
          let st4 := with_jobs (insert id job) st3 in
          let st5 := with_workers (fun ws => (ws ++ [Spawned id])%list) st4 in
          (st5, Accepted id ("Transcription job created. Use /status/" ++ id
                             ++ " to check progress."))
  end.

Definition get_job_status (id : string) (st : server) : server * response :=
  match transcription_jobs st !! id with
  | None => (st, Error 404 "Job not found")
  | Some l =>
      match objects st !! l with
      | Some job => (st, JobInfo (to_dict job))
      | None => (st, Error 500 "Internal server error")
      end
  end.

Definition download_file (id file_type : string) (st : server) : server * response :=
  match transcription_jobs st !! id with
  | None => (st, Error 404 "Job not found")
  | Some l =>
      match objects st !! l with
      | None => (st, Error 500 "Internal server error")
      | Some job =>
          if negb (bool_decide (status job = completed)) then
            (st, Error 400 "Job not completed yet")
          else if negb (String.eqb file_type "srt" || String.eqb file_type "txt") then
            (st, Error 400 ("Invalid file type. Use " ++ dq ++ "srt" ++ dq
                            ++ " or " ++ dq ++ "txt" ++ dq))
          else
            let file_key := file_type ++ "_file" in
            match output_files job !! file_key with
            | None => (st, Error 404 (Str.upper file_type ++ " file not found"))
            | Some file_path =>
                if negb (path_exists (files st) file_path) then
                  (st, Error 404 "File not found on disk")
                else (st, SendFile file_path)
            end
      end
  end.

Definition list_jobs (st : server) : server * response :=
  let jobs := omap (fun kl => to_dict <$> objects st !! kl.2)
                   (map_to_list (transcription_jobs st)) in
  (st, JobList jobs (length jobs)).

(** [try: if os.path.exists(p): os.remove(p)  except Exception: print(...)]. *)
Definition remove_quietly (p : string) : M disk unit :=
  try_except
    (d <- get ;; if path_exists d p then os_remove p else ret tt)
    (fun _ => ret tt).

Definition delete_job (id : string) (st : server) : server * response :=
  match transcription_jobs st !! id with
  | None => (st, Error 404 "Job not found")
  | Some l =>
      match objects st !! l with
      | None => (st, Error 500 "Internal server error")
      | Some job =>
          let outs := (map_to_list (output_files job)).*2 in
          let (d, _) :=
            (for_each outs (fun file_path _ => remove_quietly file_path) tt ;;
             remove_quietly (filename job)) (files st) in
          (with_jobs (delete id) (with_files d st), Message "Job deleted successfully")
      end
  end.

(** [(now - t).total_seconds() > max_age_hours * 3600]. *)
Definition older (now max_age_hours t : Z) : bool :=
  Z.ltb (max_age_hours * 3600 * 1000000) (now - t).

(** The body of the inner loop of [cleanup_old_files]. *)
Definition sweep_file (now max_age_hours : Z) (file_path : string) (cleaned : nat)
  : M disk nat :=
  try_except
    (file_time <- os_getctime file_path ;;
     if older now max_age_hours file_time then
       (os_remove file_path ;; ret (S cleaned))
     else ret cleaned)
    (fun _ => ret cleaned).

Definition sweep_folder (now max_age_hours : Z) (folder : string) (cleaned : nat)
  : M disk nat :=
  d <- get ;;
  for_each (listdir d folder)
           (fun name c => sweep_file now max_age_hours (path_join folder name) c)
           cleaned.

(** The identifiers collected in [jobs_to_remove]. *)
Definition jobs_to_remove (now max_age_hours : Z) (st : server) : list string :=
  omap (fun kl =>
          match objects st !! kl.2 with
          | Some job =>
              match end_time job with
              | Some t => if older now max_age_hours t then Some kl.1 else None
              | None => None
              end
          | None => None
          end)
       (map_to_list (transcription_jobs st)).

(** [cleanup_old_files] with its local [max_age_hours] as an argument. *)
Definition cleanup_sweep (max_age_hours now : Z) (st : server) : server * response :=
  let c :=
    try_except
      (cleaned_files <-
         on_disk (for_each [UPLOAD_FOLDER; OUTPUT_FOLDER]
                           (sweep_folder now max_age_hours) 0%nat) ;;
       st1 <- get ;;
       let ids := jobs_to_remove now max_age_hours st1 in
       modify (with_jobs (fun m => foldl (fun m id => delete id m) m ids)) ;;
       ret (Message ("Cleanup completed. Removed " ++ Str.dec cleaned_files
                     ++ " files and " ++ Str.dec (length ids) ++ " jobs.")))
      (fun e => ret (Error 500 ("Cleanup failed: " ++ exn_str e))) in
  match c st with
  | (st', inr resp) => (st', resp)
  | (st', inl _) => (st', Error 500 "Internal server error")
  end.

(** [cleanup_old_files]: [max_age_hours = 24]. *)
Definition cleanup_old_files (now : Z) (st : server) : server * response :=
  cleanup_sweep 24 now st.

(** ** Runs of the server *)

(** What can happen next: a request is served, a worker thread is
    scheduled up to its [try] block, a running autosub engine reports
    progress, a worker thread runs its [try] block until the thread ends,
    or the file system changes from outside. Each of these is one atomic
    step; the steps of different threads interleave freely. *)
Inductive op :=
| OpHealth (now : Z)
| OpTranscribe (r : transcribe_request)
| OpStatus (id : string)
| OpDownload (id file_type : string)
| OpListJobs
| OpDelete (id : string)
| OpCleanup (now : Z)
| OpWorkerStart (tid : nat)
| OpReport (tid : nat) (task : string) (p : Z)
| OpWorkerFinish (tid : nat) (b : backends) (now : Z)
| OpDisk (f : disk -> disk).

Definition worker_start (tid : nat) (st : server) : server :=
  match workers st !! tid with
  | Some (Spawned id) =>
      match process_begin id st with
      | (st1, Some job) => with_workers (<[tid := Running id job]>) st1
      | (st1, None) => with_workers (<[tid := Finished id]>) st1
      end
  | _ => st
  end.

Definition worker_report (tid : nat) (task : string) (p : Z) (st : server) : server :=
  match workers st !! tid with
  | Some (Running id job) =>
      match objects st !! job with
      | Some j => if String.eqb (engine j) "autosub"
                  then (progress_callback id task p st).1
                  else st
      | None => st
      end
  | _ => st
  end.

Definition worker_finish (tid : nat) (b : backends) (now : Z) (st : server) : server :=
  match workers st !! tid with
  | Some (Running id job) =>
      with_workers (<[tid := Finished id]>) (process_run b now id job st).1
  | _ => st
  end.

Definition step (o : op) (st : server) : server * option response :=
  match o with
  | OpHealth now => prod_map id Some (health_check now st)
  | OpTranscribe r => prod_map id Some (transcribe_file r st)
  | OpStatus i => prod_map id Some (get_job_status i st)
  | OpDownload i k => prod_map id Some (download_file i k st)
  | OpListJobs => prod_map id Some (list_jobs st)
  | OpDelete i => prod_map id Some (delete_job i st)
  | OpCleanup now => prod_map id Some (cleanup_old_files now st)
  | OpWorkerStart tid => (worker_start tid st, None)
  | OpReport tid task p => (worker_report tid task p st, None)
  | OpWorkerFinish tid b now => (worker_finish tid b now st, None)
  | OpDisk f => (with_files (f (files st)) st, None)
  end.

(** Run a schedule from [st], appending the responses to [log]. *)
Fixpoint run (ops : list op) (st : server) (log : list response)
  : server * list response :=
  match ops with
  | [] => (st, log)
  | o :: t => let (st', r) := step o st in run t st' (log ++ option_list r)
  end.

(** The states the server can be in. *)
Definition reachable (st : server) : Prop :=
  exists ops, (run ops initial []).1 = st.

(** The identifiers handed out in a log of responses. *)
Definition issued_ids (log : list response) : list string :=
  omap (fun r => match r with Accepted i _ => Some i | _ => None end) log.

End Server.

(** ** Vocabulary of the statements *)

(** A record is consistent: outputs go with [completed], the error detail
    with [failed], the end time with both, and a completed record holds
    the two output keys. *)
Record job_ok (j : TranscriptionJob) : Prop := JobOk {
  ok_outputs : output_files j ≠ ∅ ↔ status j = completed;
  ok_error : is_Some (error_message j) ↔ status j = failed;
  ok_end : is_Some (end_time j) ↔ (status j = completed ∨ status j = failed);
  ok_keys : status j = completed →
            dom (output_files j) = ({["srt_file"; "txt_file"]} : gset string)
}.

(** The invariant of the server: registered records are consistent and
    own their identifier; a worker that has not started finds its record
    pending; a worker inside its [try] block holds a processing record
    with nothing filled in yet; workers have pairwise distinct
    identifiers, all built from counter values already used. *)
Record inv (st : server) : Prop := Inv {
  inv_reg : ∀ id l, transcription_jobs st !! id = Some l →
            ∃ j, objects st !! l = Some j ∧ job_id j = id ∧ job_ok j;
  inv_spawned : ∀ tid id l, workers st !! tid = Some (Spawned id) →
            transcription_jobs st !! id = Some l →
            ∃ j, objects st !! l = Some j ∧ status j = pending;
  inv_running : ∀ tid id l, workers st !! tid = Some (Running id l) →
            ∃ j, objects st !! l = Some j ∧ job_id j = id ∧ status j = processing
                 ∧ output_files j = ∅ ∧ error_message j = None ∧ end_time j = None;
  inv_nodup : NoDup (worker_id <$> workers st);
  inv_counter : ∀ i, i ∈ worker_id <$> workers st →
            ∃ n h, (n ≤ job_counter st)%nat ∧ i = job_name n h
}.

(** The paths an adapter declares for a job's source file. *)
Definition srt_path (j : TranscriptionJob) : string :=
  path_join OUTPUT_FOLDER (path_stem (filename j) ++ ".srt").
Definition txt_path (j : TranscriptionJob) : string :=
  path_join OUTPUT_FOLDER (path_stem (filename j) ++ ".txt").

(** The calls into the external collaborators that the worker makes for
    job [j], in order, as one computation: what it returns is what the
    engine's [generate_subtitles] returned, and it raises what the first
    failing call raised. *)
Definition external_calls (b : backends) (j : TranscriptionJob) : M disk pyval :=
  if String.eqb (engine j) "autosub" then
    (Ctr_Autosub_init b ;;
     v <- Ctr_Autosub_generate_subtitles b (filename j) (srt_path j) (language j) ;;
     if py_is_minus_one v || negb (py_truth v) then ret v
     else (SRTParser_extractTextFromSRT b (srt_path j) ;; ret v))
  else if String.eqb (engine j) "whisper" then
    (CtrWhisper_initialize b ;;
     CtrWhisper_generate_subtitles b (filename j) (language j)
       (srt_path j) (txt_path j) "base")
  else ret PyNone.

(** The outcome is a raise that [except Exception] lets through. *)
Definition escapes {A} (out : exn + A) : bool :=
  match out with
  | inl e => negb (is_exception e)
  | inr _ => false
  end.

(** The engine reported success: neither the cancellation value nor a
    false value. *)
Definition reports_success (v : pyval) : bool :=
  negb (py_is_minus_one v) && py_truth v.

(** The prefix an adapter puts before the description of a fault. *)
Definition fault_prefix (j : TranscriptionJob) : string :=
  if String.eqb (engine j) "autosub" then "Autosub transcription failed: "
  else "Whisper transcription failed: ".

(** The engine adapter selected by [process_transcription_job]. *)
Definition engine_call (b : backends) (j : TranscriptionJob) (id : string)
  : M disk (bool * string * gmap string string) :=
  if String.eqb (engine j) "autosub" then
    transcribe_with_autosub b (filename j) (language j) id
  else if String.eqb (engine j) "whisper" then
    transcribe_with_whisper b (filename j) (language j) id "base"
  else ret (false, "Unknown transcription engine: " ++ engine j, ∅).

(** The record after the outcome [(success, message, outs)] is folded in. *)
Definition finalize (now : Z) (r : bool * string * gmap string string)
    (j : TranscriptionJob) : TranscriptionJob :=
  let '(success, message, outs) := r in
  if (success : bool) then
    set_progress 100 (set_output_files outs (set_status completed
      (set_end_time (Some now) j)))
  else
    set_error_message (Some message) (set_status failed
      (set_end_time (Some now) j)).

(** The fourteen accepted extensions. *)
Definition extensions : list string :=
  ["mp3"; "wav"; "m4a"; "flac"; "ogg"; "aac";
   "mp4"; "avi"; "mkv"; "mov"; "wmv"; "flv"; "webm"; "ogv"].

(** The sweep removes the entry [e] found at path [p]. *)
Definition swept (now max_age_hours : Z) (p : string) (e : entry) : bool :=
  (in_folder UPLOAD_FOLDER p || in_folder OUTPUT_FOLDER p)
  && older now max_age_hours (ctime e) && removable e.

(** The sweep removes the record [j]. *)
Definition expired (now max_age_hours : Z) (j : TranscriptionJob) : bool :=
  match end_time j with
  | Some t => older now max_age_hours t
  | None => false
  end.

(** The request passes the checks of [transcribe_file]. *)
Definition valid_request (r : transcribe_request) : bool :=
  match req_file r with
  | Some fname =>
      negb (String.eqb fname "") && allowed_file fname
      && (String.eqb (form_params r).1.1 "autosub"
          || String.eqb (form_params r).1.1 "whisper")
  | None => false
  end.

(** Where [transcribe_file] stores the upload named [fname]. *)
Definition upload_path (secure_filename : string -> string)
    (r : transcribe_request) (fname : string) : string :=
  path_join UPLOAD_FOLDER (req_uuid_file r ++ "_" ++ secure_filename fname).

(** The identifier the next accepted request receives. *)
Definition next_id (r : transcribe_request) (st : server) : string :=
  job_name (S (job_counter st)) (req_uuid_job r).

(** [os.remove] would succeed on an entry older than the bound. *)
Definition condemned (now max_age_hours : Z) (o : option entry) : bool :=
  match o with
  | Some e => older now max_age_hours (ctime e) && removable e
  | None => false
  end.

(** ** The life of a record *)

(** The outcome [r] of an adapter fits the record [j]: on success it
    names the two declared output paths, on failure it carries a
    non-empty message. *)
Definition finish_ok (j : TranscriptionJob) (r : bool * string * gmap string string)
  : Prop :=
  if r.1.1 then r.2 = outputs_of (srt_path j) (txt_path j) else r.1.2 ≠ "".

(** What one step of the server can do to a job object: a worker picks
    it up, the autosub engine reports progress on it, or its worker folds
    the outcome in. *)
Inductive job_step : TranscriptionJob → TranscriptionJob → Prop :=
| job_pickup (j : TranscriptionJob) :
    status j = pending → job_step j (set_status processing j)
| job_report (j : TranscriptionJob) (p : Z) :
    status j = processing → engine j = "autosub" → job_step j (set_progress p j)
| job_finish (j : TranscriptionJob) (now : Z) (r : bool * string * gmap string string) :
    status j = processing → finish_ok j r → job_step j (finalize now r j).

(** The order of the states: [pending] before everything, [processing]
    before the two final states. *)
Definition status_le (s s' : job_status) : Prop :=
  s = s' ∨ s = pending ∨ (s = processing ∧ (s' = completed ∨ s' = failed)).

(** [j'] is a later version of the record [j]: the fields set by
    [__init__] are the same, the status has not moved back, and a
    finished record is unchanged. *)
Record evolves (j j' : TranscriptionJob) : Prop := Evolves {
  ev_job_id : job_id j' = job_id j;
  ev_filename : filename j' = filename j;
  ev_engine : engine j' = engine j;
  ev_language : language j' = language j;
  ev_start_time : start_time j' = start_time j;
  ev_status : status_le (status j) (status j');
  ev_final : status j = completed ∨ status j = failed → j' = j
}.

(** What a job object looks like in each state. *)
Record record_shape (j : TranscriptionJob) : Prop := RecordShape {
  shape_engine : engine j = "autosub" ∨ engine j = "whisper";
  shape_pending : status j = pending → progress j = 0;
  shape_whisper : engine j = "whisper" → status j = processing → progress j = 0;
  shape_completed : status j = completed →
                    progress j = 100
                    ∧ output_files j = outputs_of (srt_path j) (txt_path j);
  shape_failed : status j = failed → ∃ m, error_message j = Some m ∧ m ≠ ""
}.

(** How identifiers, objects and workers hang together: every registered
    identifier and every object's identifier belongs to a worker, no two
    objects share an identifier, and every object is well shaped. *)
Record linked (st : server) : Prop := Linked {
  lk_reg : ∀ id l, transcription_jobs st !! id = Some l →
           id ∈ worker_id <$> workers st;
  lk_obj : ∀ l j, objects st !! l = Some j → job_id j ∈ worker_id <$> workers st;
  lk_inj : ∀ l l' j j', objects st !! l = Some j → objects st !! l' = Some j' →
           job_id j = job_id j' → l = l';
  lk_shape : ∀ l j, objects st !! l = Some j → record_shape j
}.

(** ** Sample inputs *)

(** A stand-in for [secure_filename] on names that are already safe. *)
Definition keep_name (s : string) : string := s.

(** Engines that succeed and write the files they were asked for. *)
Definition engines_ok : backends :=
  Backends
    (ret tt)
    (fun _ output _ d => (<[output := Entry 5 true]> d, inr (PyStr output)))
    (fun srt d => (<["outputs/abc_talk.txt" := Entry 6 true]> d, inr tt))
    (ret tt)
    (fun _ _ srt txt _ d =>
       (<[srt := Entry 5 true]> (<[txt := Entry 5 true]> d), inr (PyBool true))).

(** Engines that raise as soon as they are initialised. *)
Definition engines_crash : backends :=
  Backends
    (raise (Exn "no network" "Traceback (most recent call last)"))
    (fun _ _ _ => ret PyNone)
    (fun _ => ret tt)
    (raise (Exn "no model" "Traceback (most recent call last)"))
    (fun _ _ _ _ _ => ret PyNone).

(** Engines that report success but leave the text file out. *)
Definition engines_forgetful : backends :=
  Backends
    (ret tt)
    (fun _ output _ d => (<[output := Entry 5 true]> d, inr (PyStr output)))
    (fun _ => ret tt)
    (ret tt)
    (fun _ _ srt _ _ d => (<[srt := Entry 5 true]> d, inr (PyBool true))).

Definition sample_request : transcribe_request :=
  Request (Some "talk.WAV") (<["engine" := "AutoSub"]> ∅) "abc" "0123456789abcdef" 1.

Definition bare_request : transcribe_request :=
  Request (Some "talk.WAV") ∅ "abc" "0123456789abcdef" 1.

Definition text_request : transcribe_request :=
  Request (Some "notes.txt") ∅ "abc" "0123456789abcdef" 1.

Definition sample_id : string := "job_1_01234567".

(** The sample job once created, once picked up, and once completed. *)
Definition sample_pending : server :=
  (run keep_name [OpTranscribe sample_request] initial []).1.

Definition sample_processing : server :=
  (run keep_name [OpTranscribe sample_request; OpWorkerStart 0] initial []).1.

Definition sample_completed : server :=
  (run keep_name [OpTranscribe sample_request; OpWorkerStart 0;
                  OpWorkerFinish 0 engines_ok 9] initial []).1.

Definition sample_job : TranscriptionJob :=
  Job sample_id "uploads/abc_talk.WAV" "autosub" "en" pending 0 1 None None ∅.

Definition sample_job_done : TranscriptionJob :=
  Job sample_id "uploads/abc_talk.WAV" "autosub" "en" completed 100 1 (Some 9) None
      (outputs_of "outputs/abc_talk.srt" "outputs/abc_talk.txt").

(** The sample job deleted while its worker is still running. *)
Definition sample_deleted : server :=
  (run keep_name [OpTranscribe sample_request; OpWorkerStart 0; OpDelete sample_id]
       initial []).1.

(** A request that spells the engine in mixed case. *)
Definition mixed_case_request : transcribe_request :=
  Request (Some "clip.Mp4") (<["engine" := "WhIsPeR"]> ∅) "abc" "0123456789abcdef" 1.


(** An old entry in the upload folder that cannot be unlinked. *)
Definition sample_stuck : server :=
  (run keep_name [OpDisk (insert "uploads/old" (Entry 0 false))] initial []).1.


(** Engines whose [generate_subtitles] ends in [sys.exit(1)]. *)
Definition engines_exit : backends :=
  Backends
    (ret tt) (fun _ _ _ => raise (BaseExn "1" "Traceback (most recent call last)"))
    (fun _ => ret tt)
    (ret tt) (fun _ _ _ _ _ => raise (BaseExn "1" "Traceback (most recent call last)")).

(** The sample job after its engine ended in [sys.exit(1)] at time 9. *)
Definition sample_exited : server :=
  (run keep_name [OpTranscribe sample_request; OpWorkerStart 0;
                  OpWorkerFinish 0 engines_exit 9] initial []).1.

(** The extension [mkv] spelled with U+212A KELVIN SIGN (in UTF-8 the
    bytes 226, 132, 170) in place of the letter k, and a file name and a
    request that carry it. *)
Definition kelvin_ext : string :=
  String "m" (String (ascii_of_nat 226) (String (ascii_of_nat 132)
    (String (ascii_of_nat 170) "v"))).

Definition kelvin_name : string := String "a" (String "." kelvin_ext).

Definition kelvin_request : transcribe_request :=
  Request (Some kelvin_name) ∅ "abc" "0123456789abcdef" 1.

(** Engines that report they were cancelled. *)
Definition engines_cancelled : backends :=
  Backends
    (ret tt) (fun _ _ _ => ret (PyInt (-1))) (fun _ => ret tt)
    (ret tt) (fun _ _ _ _ _ => ret (PyInt (-1))).

(** What an adapter returns, given the disk [d'] left by the external
    calls and their outcome [out], a value or an [Exception]. *)
Definition adapter_post (j : TranscriptionJob) (d' : disk) (out : exn + pyval)
    (r : bool * string * gmap string string) : Prop :=
  match out with
  | inl e => r = (false, fault_prefix j ++ exn_str e ++ nl ++ exn_traceback e, ∅)
  | inr v =>
      if reports_success v && path_exists d' (srt_path j) && path_exists d' (txt_path j)
      then r = (true, "Transcription completed successfully",
                outputs_of (srt_path j) (txt_path j))
      else r.1.1 = false ∧ r.2 = ∅ ∧ r.1.2 ≠ ""
  end.

(** * Properties *)

(** ** Auxiliary lemmas *)

(** *** Strings *)

Lemma string_of_uint_lacks_underscore (d : Decimal.uint) :
  Str.lacks "_" (NilEmpty.string_of_uint d).
Proof. induction d; simpl; auto; split; auto; discriminate. Qed.

Lemma dec_inj (n m : nat) : Str.dec n = Str.dec m → n = m.
Proof.
  unfold Str.dec. intros H.
  apply Unsigned.to_uint_inj.
  assert (Some (Nat.to_uint n) = Some (Nat.to_uint m)) as Hs
    by (rewrite <- !NilEmpty.usu; now rewrite H).
  now injection Hs.
Qed.

Lemma lacks_app_sep (c : ascii) (a b s t : string) :
  Str.lacks c a → Str.lacks c b →
  a ++ String c s = b ++ String c t → a = b.
Proof.
  revert b. induction a as [|x a IH]; intros [|y b]; simpl; intros Ha Hb E.
  - reflexivity.
  - injection E as E1 _. destruct Hb as [Hb _]. now subst.
  - injection E as E1 _. destruct Ha as [Ha _]. now subst.
  - injection E as E1 E2. subst. f_equal. apply IH; tauto.
Qed.

Lemma job_name_inj (n m : nat) (h k : string) :
  job_name n h = job_name m k → n = m.
Proof.
  unfold job_name. intros E.
  apply dec_inj.
  simpl in E. injection E as E.
  eapply lacks_app_sep; [| | exact E]; apply string_of_uint_lacks_underscore.
Qed.

(** *** The engine adapters *)

Local Ltac fin :=
  left; split;
  [simpl; repeat match goal with H : _ = true |- _ => rewrite H end; reflexivity|];
  eexists; split;
  [reflexivity
  |simpl;
   repeat match goal with H : _ = true |- _ => rewrite H | H : _ = false |- _ => rewrite H end;
   simpl; repeat split; solve [discriminate | auto]].

Local Ltac caught e :=
  let Hx := fresh "Hx" in
  destruct (is_exception e) eqn:Hx; simpl; [fin | right; exists e; repeat split; done].

(** An adapter returns its triple, unless one of the external calls
    raises what is not an [Exception]: that passes through the adapter. *)
Lemma engine_call_spec (b : backends) (j : TranscriptionJob) (id : string) (d : disk) :
  (escapes (external_calls b j d).2 = false
   ∧ ∃ r, engine_call b j id d = ((external_calls b j d).1, inr r)
          ∧ adapter_post j (external_calls b j d).1 (external_calls b j d).2 r)
  ∨ (∃ e, (external_calls b j d).2 = inl e ∧ is_exception e = false
          ∧ engine_call b j id d = ((external_calls b j d).1, inl e)).
Proof.
  unfold engine_call, external_calls, adapter_post, fault_prefix, escapes.
  destruct (String.eqb (engine j) "autosub") eqn:Ea.
  - unfold transcribe_with_autosub, try_except, bind, ret, get, reports_success.
    fold (srt_path j) (txt_path j).
    destruct (Ctr_Autosub_init b d) as [d1 [e|[]]]; simpl; [caught e|].
    destruct (Ctr_Autosub_generate_subtitles b _ _ _ d1) as [d2 [e|v]]; simpl; [caught e|].
    destruct (py_is_minus_one v) eqn:Hm; simpl; [fin|].
    destruct (py_truth v) eqn:Ht; simpl; [|fin].
    destruct (SRTParser_extractTextFromSRT b _ d2) as [d3 [e|[]]]; simpl; [caught e|].
    destruct (path_exists d3 (srt_path j)) eqn:Hs; simpl; [|fin].
    destruct (path_exists d3 (txt_path j)) eqn:Hx; simpl; fin.
  - destruct (String.eqb (engine j) "whisper") eqn:Ew.
    + unfold transcribe_with_whisper, try_except, bind, ret, get, reports_success.
      fold (srt_path j) (txt_path j).
      destruct (CtrWhisper_initialize b d) as [d1 [e|[]]]; simpl; [caught e|].
      destruct (CtrWhisper_generate_subtitles b _ _ _ _ _ d1) as [d2 [e|v]]; simpl;
        [caught e|].
      destruct (py_is_minus_one v) eqn:Hm; simpl; [fin|].
      destruct (py_truth v) eqn:Ht; simpl; [|fin].
      destruct (path_exists d2 (srt_path j)) eqn:Hs; simpl; [|fin].
      destruct (path_exists d2 (txt_path j)) eqn:Hx; simpl; fin.
    + unfold ret; simpl. fin.
Qed.

(** *** The worker *)

Lemma alter_Some {K A} `{Countable K} (f : A → A) (m : gmap K A) (i : K) (x : A) :
  m !! i = Some x → alter f i m = <[i := f x]> m.
Proof.
  intros Hx. apply map_eq. intros k.
  destruct (decide (i = k)) as [->|Hne].
  - rewrite lookup_alter_eq, lookup_insert_eq, Hx. reflexivity.
  - rewrite lookup_alter_ne, lookup_insert_ne by done. reflexivity.
Qed.

Lemma process_run_spec (b : backends) (now : Z) (id : string) (l : nat)
    (st : server) (j : TranscriptionJob) (d' : disk)
    (r : bool * string * gmap string string) :
  objects st !! l = Some j →
  engine_call b j id (files st) = (d', inr r) →
  process_run b now id l st
  = (Server (<[l := finalize now r j]> (objects st)) (transcription_jobs st)
            (job_counter st) d' (workers st), inr tt).
Proof.
  intros Hj Hcall.
  unfold process_run, try_except, bind, read, on_disk, ret.
  rewrite Hj. unfold engine_call in Hcall.
  destruct (String.eqb (engine j) "autosub").
  - do 2 (rewrite Hj; cbn -[transcribe_with_autosub]). rewrite Hcall.
    destruct r as [[[] msg] outs]; simpl.
    all: unfold write, modify, with_objects, with_files; simpl.
    all: rewrite ?(alter_Some _ _ _ _ Hj), ?alter_insert_eq, ?insert_insert_eq; reflexivity.
  - destruct (String.eqb (engine j) "whisper").
    + do 2 (rewrite Hj; cbn -[transcribe_with_whisper]). rewrite Hcall.
      destruct r as [[[] msg] outs]; simpl.
      all: unfold write, modify, with_objects, with_files; simpl.
      all: rewrite ?(alter_Some _ _ _ _ Hj), ?alter_insert_eq, ?insert_insert_eq; reflexivity.
    + unfold ret in Hcall. injection Hcall as <- <-. simpl.
      unfold write, modify, with_objects, with_files; simpl.
      rewrite ?(alter_Some _ _ _ _ Hj), ?alter_insert_eq, ?insert_insert_eq.
      destruct st; reflexivity.
Qed.

(** What is not an [Exception] passes through the worker's [try] as
    well, before any field of the record is assigned. *)
Lemma process_run_escape (b : backends) (now : Z) (id : string) (l : nat)
    (st : server) (j : TranscriptionJob) (d' : disk) (e : exn) :
  objects st !! l = Some j →
  engine_call b j id (files st) = (d', inl e) → is_exception e = false →
  process_run b now id l st
  = (Server (objects st) (transcription_jobs st) (job_counter st) d' (workers st),
     inl e).
Proof.
  intros Hj Hcall Hx.
  unfold process_run, try_except, bind, read, on_disk, ret.
  rewrite Hj. unfold engine_call in Hcall.
  destruct (String.eqb (engine j) "autosub").
  - do 2 (rewrite Hj; cbn -[transcribe_with_autosub]). rewrite Hcall.
    cbn. by rewrite Hx.
  - destruct (String.eqb (engine j) "whisper").
    + do 2 (rewrite Hj; cbn -[transcribe_with_whisper]). rewrite Hcall.
      cbn. by rewrite Hx.
    + discriminate.
Qed.

(** The two ways the worker's [try] statement ends: the outcome of the
    adapter is folded into the record and the routine returns, or a raise
    that is not an [Exception] leaves the routine with the record as it
    was. *)
Lemma process_run_cases (b : backends) (now : Z) (id : string) (l : nat)
    (st : server) (j : TranscriptionJob) :
  objects st !! l = Some j →
  (escapes (external_calls b j (files st)).2 = false
   ∧ ∃ r, engine_call b j id (files st) = ((external_calls b j (files st)).1, inr r)
       ∧ adapter_post j (external_calls b j (files st)).1
                      (external_calls b j (files st)).2 r
       ∧ process_run b now id l st
         = (Server (<[l := finalize now r j]> (objects st)) (transcription_jobs st)
                   (job_counter st) (external_calls b j (files st)).1 (workers st),
            inr tt))
  ∨ (∃ e, (external_calls b j (files st)).2 = inl e ∧ is_exception e = false
       ∧ process_run b now id l st
         = (Server (objects st) (transcription_jobs st) (job_counter st)
                   (external_calls b j (files st)).1 (workers st),
            inl e)).
Proof.
  intros Hj.
  destruct (engine_call_spec b j id (files st))
    as [(Hesc & res & Hcall & Hpost)|(e & Hout & Hx & Hcall)].
  - left. split; [exact Hesc|]. exists res. split; [exact Hcall|]. split; [exact Hpost|].
    exact (process_run_spec b now id l st j _ res Hj Hcall).
  - right. exists e. split; [exact Hout|]. split; [exact Hx|].
    exact (process_run_escape b now id l st j _ e Hj Hcall Hx).
Qed.

(** *** The invariant *)

Lemma job_ok_new (id file eng lang : string) (now : Z) :
  job_ok (new_job id file eng lang now).
Proof.
  split; simpl.
  - split; [intros H; by destruct H | discriminate].
  - split; [intros [? ?]; discriminate | discriminate].
  - split; [intros [? ?]; discriminate | intros [?|?]; discriminate].
  - discriminate.
Qed.

Lemma job_ok_blank (j : TranscriptionJob) :
  job_ok j → status j = pending ∨ status j = processing →
  output_files j = ∅ ∧ error_message j = None ∧ end_time j = None.
Proof.
  intros [Ho He Ht _] Hs. repeat split.
  - destruct (decide (output_files j = ∅)) as [|Hn]; [done|].
    apply Ho in Hn. destruct Hs; congruence.
  - destruct (error_message j) eqn:E; [|done].
    assert (status j = failed) by (apply He; eauto). destruct Hs; congruence.
  - destruct (end_time j) eqn:E; [|done].
    assert (status j = completed ∨ status j = failed) as [|] by (apply Ht; eauto);
      destruct Hs; congruence.
Qed.

Lemma job_ok_unfinished (j : TranscriptionJob) :
  status j = pending ∨ status j = processing →
  output_files j = ∅ → error_message j = None → end_time j = None → job_ok j.
Proof.
  intros Hs Ho He Ht. split.
  - rewrite Ho. split; [done | destruct Hs; congruence].
  - rewrite He. split; [intros [? ?]; discriminate | destruct Hs; congruence].
  - rewrite Ht. split; [intros [? ?]; discriminate | intros [|]; destruct Hs; congruence].
  - destruct Hs; congruence.
Qed.

Lemma outputs_of_dom (a b : string) :
  dom (outputs_of a b) = ({["srt_file"; "txt_file"]} : gset string).
Proof. unfold outputs_of. rewrite !dom_insert_L, dom_empty_L. set_solver. Qed.

Lemma outputs_of_nonempty (a b : string) : outputs_of a b ≠ ∅.
Proof. unfold outputs_of. apply insert_non_empty. Qed.

Lemma job_ok_finalize (now : Z) (r : bool * string * gmap string string)
    (j : TranscriptionJob) :
  output_files j = ∅ → error_message j = None →
  (if r.1.1 then ∃ a b, r.2 = outputs_of a b else True) →
  job_ok (finalize now r j).
Proof.
  intros Ho He Hr. destruct r as [[[] msg] outs]; simpl in *.
  - destruct Hr as (a & b & ->). split; simpl.
    + split; [done | intros _; apply outputs_of_nonempty].
    + rewrite He. split; [intros [? ?]; discriminate | discriminate].
    + split; eauto.
    + intros _. apply outputs_of_dom.
  - split; simpl.
    + rewrite Ho. split; [done | discriminate].
    + split; eauto.
    + split; eauto.
    + discriminate.
Qed.

Lemma inv_initial : inv initial.
Proof.
  split; simpl.
  - intros id l H. by rewrite lookup_empty in H.
  - intros tid id l H. by rewrite lookup_nil in H.
  - intros tid id l H. by rewrite lookup_nil in H.
  - constructor.
  - intros i H. by apply not_elem_of_nil in H.
Qed.

(** Two workers with the same identifier are the same worker. *)
Lemma worker_unique (ws : list worker) (t1 t2 : nat) (w1 w2 : worker) :
  NoDup (worker_id <$> ws) → ws !! t1 = Some w1 → ws !! t2 = Some w2 →
  worker_id w1 = worker_id w2 → t1 = t2.
Proof.
  intros Hnd H1 H2 E.
  eapply NoDup_lookup; [exact Hnd | |].
  - rewrite list_lookup_fmap, H1. reflexivity.
  - rewrite list_lookup_fmap, H2. simpl. by rewrite E.
Qed.

Lemma worker_ids_insert (ws : list worker) (tid : nat) (w w' : worker) :
  ws !! tid = Some w → worker_id w' = worker_id w →
  worker_id <$> <[tid := w']> ws = worker_id <$> ws.
Proof.
  intros Hw E. rewrite list_fmap_insert, E.
  apply list_insert_id. by rewrite list_lookup_fmap, Hw.
Qed.

(** A worker moves on while its record is replaced in place. *)
Lemma inv_worker_update (st : server) (tid : nat) (w w' : worker) (l : nat)
    (j j' : TranscriptionJob) (d' : disk) :
  inv st →
  workers st !! tid = Some w → worker_id w' = worker_id w →
  objects st !! l = Some j → job_id j = worker_id w → job_id j' = worker_id w →
  job_ok j' →
  match w' with
  | Spawned _ => False
  | Running _ l0 => l0 = l ∧ status j' = processing ∧ output_files j' = ∅
                    ∧ error_message j' = None ∧ end_time j' = None
  | Finished _ => True
  end →
  inv (Server (<[l := j']> (objects st)) (transcription_jobs st) (job_counter st)
              d' (<[tid := w']> (workers st))).
Proof.
  intros [Hreg Hsp Hrun Hnd Hcnt] Hw Hid Hj Hjid Hjid' Hok Hw'.
  assert (tid < length (workers st))%nat as Hlt by (eapply lookup_lt_Some; eauto).
  split; simpl.
  - intros id0 l0 H0. destruct (Hreg _ _ H0) as (j0 & Hj0 & Hi0 & Hok0).
    destruct (decide (l = l0)) as [<-|Hne].
    + rewrite lookup_insert_eq. exists j'. split; [done|]. split; [congruence | done].
    + rewrite lookup_insert_ne by done. eauto.
  - intros tid0 id0 l0 Hw0 H0.
    destruct (decide (tid = tid0)) as [<-|Hnt].
    { rewrite list_lookup_insert_eq in Hw0 by done.
      injection Hw0 as ->. done. }
    rewrite list_lookup_insert_ne in Hw0 by done.
    destruct (Hsp _ _ _ Hw0 H0) as (j0 & Hj0 & Hs0).
    destruct (decide (l = l0)) as [<-|Hne]; [|rewrite lookup_insert_ne by done; eauto].
    exfalso. apply Hnt.
    destruct (Hreg _ _ H0) as (j1 & Hj1 & Hi1 & _).
    eapply worker_unique; eauto. simpl. congruence.
  - intros tid0 id0 l0 Hw0.
    destruct (decide (tid = tid0)) as [<-|Hnt].
    { rewrite list_lookup_insert_eq in Hw0 by done.
      injection Hw0 as ->. destruct Hw' as (-> & ? & ? & ? & ?).
      rewrite lookup_insert_eq. exists j'. simpl in Hid. repeat split; congruence. }
    rewrite list_lookup_insert_ne in Hw0 by done.
    destruct (Hrun _ _ _ Hw0) as (j0 & Hj0 & Hi0 & Hrest).
    destruct (decide (l = l0)) as [<-|Hne]; [|rewrite lookup_insert_ne by done; eauto].
    exfalso. apply Hnt.
    eapply worker_unique; eauto. simpl. congruence.
  - by rewrite (worker_ids_insert _ _ w).
  - by rewrite (worker_ids_insert _ _ w).
Qed.

(** A worker returns without touching any record. *)
Lemma inv_worker_returns (st : server) (tid : nat) (w : worker) (d' : disk) :
  inv st → workers st !! tid = Some w →
  inv (Server (objects st) (transcription_jobs st) (job_counter st) d'
              (<[tid := Finished (worker_id w)]> (workers st))).
Proof.
  intros [Hreg Hsp Hrun Hnd Hcnt] Hw.
  assert (tid < length (workers st))%nat as Hlt by (eapply lookup_lt_Some; eauto).
  split; simpl; auto.
  - intros tid0 id0 l0 Hw0 H0.
    destruct (decide (tid = tid0)) as [<-|Hnt].
    { rewrite list_lookup_insert_eq in Hw0 by done. discriminate. }
    rewrite list_lookup_insert_ne in Hw0 by done. eauto.
  - intros tid0 id0 l0 Hw0.
    destruct (decide (tid = tid0)) as [<-|Hnt].
    { rewrite list_lookup_insert_eq in Hw0 by done. discriminate. }
    rewrite list_lookup_insert_ne in Hw0 by done. eauto.
  - by rewrite (worker_ids_insert _ _ w).
  - by rewrite (worker_ids_insert _ _ w).
Qed.

(** Records are removed from the registry, objects stay. *)
Lemma inv_shrink (st : server) (reg' : gmap string nat) (d' : disk) :
  inv st →
  (∀ id l, reg' !! id = Some l → transcription_jobs st !! id = Some l) →
  inv (Server (objects st) reg' (job_counter st) d' (workers st)).
Proof.
  intros [Hreg Hsp Hrun Hnd Hcnt] Hsub. split; simpl; eauto.
Qed.

(** A progress report: only the [progress] field of one object changes. *)
Lemma inv_progress (st : server) (l : nat) (p : Z) :
  inv st → inv (with_objects (alter (set_progress p) l) st).
Proof.
  intros [Hreg Hsp Hrun Hnd Hcnt]. unfold with_objects.
  assert (∀ l0 j0, objects st !! l0 = Some j0 →
            ∃ j1, alter (set_progress p) l (objects st) !! l0 = Some j1
                  ∧ job_id j1 = job_id j0 ∧ status j1 = status j0
                  ∧ output_files j1 = output_files j0
                  ∧ error_message j1 = error_message j0
                  ∧ end_time j1 = end_time j0) as Hsame.
  { intros l0 j0 H0. destruct (decide (l = l0)) as [<-|Hne].
    - rewrite lookup_alter_eq, H0. simpl. eauto 10.
    - rewrite lookup_alter_ne by done. eauto 10. }
  split; simpl; auto.
  - intros id0 l0 H0. destruct (Hreg _ _ H0) as (j0 & Hj0 & Hi0 & [Ho He Ht Hk]).
    destruct (Hsame _ _ Hj0) as (j1 & Hj1 & E1 & E2 & E3 & E4 & E5).
    exists j1. repeat split; try congruence; rewrite ?E2, ?E3, ?E4, ?E5; tauto.
  - intros tid0 id0 l0 Hw0 H0. destruct (Hsp _ _ _ Hw0 H0) as (j0 & Hj0 & Hs0).
    destruct (Hsame _ _ Hj0) as (j1 & Hj1 & E1 & E2 & E3 & E4 & E5).
    exists j1. split; congruence.
  - intros tid0 id0 l0 Hw0. destruct (Hrun _ _ _ Hw0) as (j0 & Hj0 & ? & ? & ? & ? & ?).
    destruct (Hsame _ _ Hj0) as (j1 & Hj1 & E1 & E2 & E3 & E4 & E5).
    exists j1. repeat split; congruence.
Qed.

(** *** The sweep *)

Lemma append_assoc_string (a b c : string) : (a ++ b) ++ c = a ++ (b ++ c).
Proof.
  induction a as [|x a IH]; [done|].
  change (String x ((a ++ b) ++ c) = String x (a ++ (b ++ c))). by rewrite IH.
Qed.

Lemma strip_prefix_Some (pre s t : string) :
  strip_prefix pre s = Some t ↔ s = pre ++ t.
Proof.
  revert s. induction pre as [|a pre IH]; intros s.
  - change (Some s = Some t ↔ s = t). split; congruence.
  - change (String a pre ++ t) with (String a (pre ++ t)).
    destruct s as [|c s]; simpl; [split; discriminate|].
    destruct (Ascii.eqb_spec a c) as [->|Hne].
    + rewrite IH. split; congruence.
    + split; [discriminate | congruence].
Qed.

(** The paths listed in a folder are the entries lying directly in it. *)
Lemma listdir_paths (d : disk) (folder p : string) :
  p ∈ path_join folder <$> listdir d folder
  ↔ is_Some (d !! p) ∧ in_folder folder p = true.
Proof.
  unfold listdir. rewrite list_elem_of_fmap. split.
  - intros (name & -> & Hin). apply list_elem_of_omap in Hin as (q & Hq & Hf).
    apply elem_of_elements, elem_of_dom in Hq.
    destruct (strip_prefix (folder ++ "/") q) as [n|] eqn:Hs; [|discriminate].
    destruct (in_folder folder q) eqn:Hi; [|discriminate].
    injection Hf as ->. apply strip_prefix_Some in Hs.
    unfold path_join. rewrite <- append_assoc_string, <- Hs. done.
  - intros [Hp Hi]. unfold in_folder in Hi.
    destruct (strip_prefix (folder ++ "/") p) as [n|] eqn:Hs; [|discriminate].
    exists n. split.
    + apply strip_prefix_Some in Hs. unfold path_join.
      by rewrite <- append_assoc_string.
    + apply list_elem_of_omap. exists p. split.
      * by apply elem_of_elements, elem_of_dom.
      * rewrite Hs. unfold in_folder. rewrite Hs, Hi. done.
Qed.

Lemma sweep_file_spec (now h : Z) (p : string) (c : nat) (d : disk) :
  sweep_file now h p c d
  = if condemned now h (d !! p) then (delete p d, inr (S c)) else (d, inr c).
Proof.
  unfold sweep_file, try_except, bind, os_getctime, os_remove, ret, condemned.
  destruct (d !! p) as [e|] eqn:Hp; simpl; [|done].
  destruct (older now h (ctime e)); simpl; [|done].
  rewrite Hp. destruct (removable e); done.
Qed.

Lemma size_delete_Some {A} (d : gmap string A) (p : string) (e : A) :
  d !! p = Some e → size d = S (size (delete p d)).
Proof.
  intros Hp. rewrite <- (insert_delete_id d p e Hp) at 1.
  apply map_size_insert_None, lookup_delete_eq.
Qed.

Lemma sweep_loop (now h : Z) (paths : list string) (c : nat) (d : disk) :
  ∃ d' c',
    for_each paths (fun p c => sweep_file now h p c) c d = (d', inr c')
    ∧ (c' + size d' = c + size d)%nat
    ∧ ∀ p, d' !! p = if bool_decide (p ∈ paths) && condemned now h (d !! p)
                     then None else d !! p.
Proof.
  revert c d. induction paths as [|p0 t IH]; intros c d; simpl.
  - exists d, c. unfold ret. repeat split.
  - unfold bind. rewrite sweep_file_spec.
    destruct (condemned now h (d !! p0)) eqn:Hc.
    + destruct (IH (S c) (delete p0 d)) as (d' & c' & Hrun & Hsz & Hlk).
      exists d', c'. split; [done|]. split.
      * unfold condemned in Hc. destruct (d !! p0) as [e|] eqn:Hp; [|done].
        rewrite (size_delete_Some d p0 e Hp). lia.
      * intros p. rewrite Hlk. destruct (decide (p = p0)) as [->|Hne].
        -- rewrite lookup_delete_eq, Hc.
           rewrite (bool_decide_eq_true_2 (p0 ∈ p0 :: t)) by apply list_elem_of_here.
           simpl. by destruct (bool_decide (p0 ∈ t)).
        -- rewrite lookup_delete_ne by done.
           rewrite (bool_decide_ext (p ∈ p0 :: t) (p ∈ t)); [done|].
           rewrite elem_of_cons. split; [intros [?|?]; [congruence | done] | by right].
    + destruct (IH c d) as (d' & c' & Hrun & Hsz & Hlk).
      exists d', c'. split; [done|]. split; [done|].
      intros p. rewrite Hlk. destruct (decide (p = p0)) as [->|Hne].
      * rewrite Hc, !andb_false_r. done.
      * rewrite (bool_decide_ext (p ∈ p0 :: t) (p ∈ t)); [done|].
        rewrite elem_of_cons. split; [intros [?|?]; [congruence | done] | by right].
Qed.

Lemma for_each_fmap {S A B C} (f : A → B) (l : list A) (body : B → C → M S C)
    (c : C) (s : S) :
  for_each l (fun x c => body (f x) c) c s = for_each (f <$> l) body c s.
Proof.
  revert c s. induction l as [|x l IH]; intros c s; simpl; [done|].
  unfold bind. destruct (body (f x) c s) as [s' [e|c']]; [done | apply IH].
Qed.

Lemma sweep_folder_spec (now h : Z) (folder : string) (c : nat) (d : disk) :
  ∃ d' c',
    sweep_folder now h folder c d = (d', inr c')
    ∧ (c' + size d' = c + size d)%nat
    ∧ ∀ p, d' !! p = if in_folder folder p && condemned now h (d !! p)
                     then None else d !! p.
Proof.
  unfold sweep_folder, bind, get.
  rewrite (for_each_fmap (path_join folder) _ (sweep_file now h)).
  destruct (sweep_loop now h (path_join folder <$> listdir d folder) c d)
    as (d' & c' & Hrun & Hsz & Hlk).
  exists d', c'. split; [done|]. split; [done|].
  intros p. rewrite Hlk. destruct (d !! p) as [e|] eqn:Hp.
  - rewrite (bool_decide_ext _ (is_Some (d !! p) ∧ in_folder folder p = true))
      by apply listdir_paths.
    destruct (in_folder folder p) eqn:Hi.
    + rewrite bool_decide_eq_true_2; [done|]. split; [by rewrite Hp | done].
    + rewrite bool_decide_eq_false_2; [done|]. intros [_ ?]. discriminate.
  - simpl. by rewrite !andb_false_r.
Qed.

Lemma sweep_all_spec (now h : Z) (d : disk) :
  ∃ d' c',
    for_each [UPLOAD_FOLDER; OUTPUT_FOLDER] (sweep_folder now h) 0%nat d = (d', inr c')
    ∧ (c' + size d' = size d)%nat
    ∧ ∀ p, d' !! p = match d !! p with
                     | Some e => if swept now h p e then None else Some e
                     | None => None
                     end.
Proof.
  simpl. unfold bind.
  destruct (sweep_folder_spec now h UPLOAD_FOLDER 0 d) as (d1 & c1 & -> & Hs1 & Hl1).
  destruct (sweep_folder_spec now h OUTPUT_FOLDER c1 d1) as (d2 & c2 & -> & Hs2 & Hl2).
  exists d2, c2. unfold ret. split; [done|]. split; [lia|].
  intros p. rewrite Hl2, Hl1. unfold swept.
  destruct (d !! p) as [e|]; simpl.
  - destruct (in_folder UPLOAD_FOLDER p), (in_folder OUTPUT_FOLDER p); simpl;
      destruct (older now h (ctime e) && removable e) eqn:Hc; simpl;
      rewrite ?Hc; done.
  - by rewrite !andb_false_r.
Qed.

Lemma lookup_foldl_delete {A} (m : gmap string A) (ids : list string) (k : string) :
  foldl (fun m id => delete id m) m ids !! k
  = if bool_decide (k ∈ ids) then None else m !! k.
Proof.
  revert m. induction ids as [|i ids IH]; intros m; simpl.
  - done.
  - rewrite IH. destruct (decide (k = i)) as [->|Hne].
    + rewrite lookup_delete_eq.
      rewrite (bool_decide_eq_true_2 (i ∈ i :: ids)) by apply list_elem_of_here.
      by destruct (bool_decide (i ∈ ids)).
    + rewrite lookup_delete_ne by done.
      rewrite (bool_decide_ext (k ∈ i :: ids) (k ∈ ids)); [done|].
      rewrite elem_of_cons. split; [intros [?|?]; [congruence | done] | by right].
Qed.


Lemma jobs_to_remove_elem (now h : Z) (st : server) (k : string) :
  k ∈ jobs_to_remove now h st
  ↔ ∃ l j, transcription_jobs st !! k = Some l ∧ objects st !! l = Some j
           ∧ expired now h j = true.
Proof.
  unfold jobs_to_remove, expired. rewrite list_elem_of_omap. split.
  - intros ([k' l] & Hin & Hf). apply elem_of_map_to_list in Hin. simpl in Hf.
    destruct (objects st !! l) as [j|] eqn:Hj; [|discriminate].
    destruct (end_time j) as [t|] eqn:Ht; [|discriminate].
    destruct (older now h t) eqn:Ho; [|discriminate].
    injection Hf as ->. exists l, j. rewrite Ht. done.
  - intros (l & j & Hk & Hj & He). exists (k, l). split.
    + by apply elem_of_map_to_list.
    + simpl. rewrite Hj. destruct (end_time j); [|discriminate]. by rewrite He.
Qed.



Lemma cleanup_sweep_spec (h now : Z) (st : server) :
  ∃ d' nf,
    cleanup_sweep h now st
    = (Server (objects st)
              (foldl (fun m id => delete id m) (transcription_jobs st)
                     (jobs_to_remove now h st))
              (job_counter st) d' (workers st),
       Message ("Cleanup completed. Removed " ++ Str.dec nf ++ " files and "
                ++ Str.dec (length (jobs_to_remove now h st)) ++ " jobs."))
    ∧ (nf + size d' = size (files st))%nat
    ∧ ∀ p, d' !! p = match files st !! p with
                     | Some e => if swept now h p e then None else Some e
                     | None => None
                     end.
Proof.
  destruct (sweep_all_spec now h (files st)) as (d' & nf & Hrun & Hsz & Hlk).
  exists d', nf. split; [|done].
  unfold cleanup_sweep, try_except, bind, on_disk, get, modify, ret.
  rewrite Hrun. reflexivity.
Qed.

Lemma allowed_file_extensions (fname : string) :
  allowed_file fname = true ↔ file_ext fname ∈ extensions.
Proof.
  unfold allowed_file, ALLOWED_audio, ALLOWED_video.
  rewrite orb_true_iff, !bool_decide_eq_true, !elem_of_list_to_set.
  change extensions with
    (["mp3"; "wav"; "m4a"; "flac"; "ogg"; "aac"]
     ++ ["mp4"; "avi"; "mkv"; "mov"; "wmv"; "flv"; "webm"; "ogv"])%list.
  by rewrite elem_of_app.
Qed.

Lemma delete_job_response (id : string) (st : server) :
  issued_ids [(delete_job id st).2] = [].
Proof.
  unfold delete_job.
  destruct (transcription_jobs st !! id) as [l|]; [|done].
  destruct (objects st !! l) as [job|]; [|done].
  match goal with |- context [let (d, _) := ?c in _] => by destruct c end.
Qed.

(** *** The request handlers *)

Section Handlers.
Variable secure_filename : string → string.

Lemma transcribe_file_reject (r : transcribe_request) (st : server) :
  valid_request r = false →
  ∃ msg, transcribe_file secure_filename r st = (st, Error 400 msg).
Proof.
  unfold valid_request, transcribe_file. intros Hv.
  destruct (req_file r) as [fname|]; [|eauto].
  destruct (String.eqb fname ""); [eauto|].
  destruct (allowed_file fname); simpl in *; [|eauto].
  destruct (form_params r) as [[eng lang] model]. simpl in Hv.
  rewrite Hv. simpl. eauto.
Qed.

Lemma transcribe_file_accept (r : transcribe_request) (st : server) (fname : string) :
  req_file r = Some fname → valid_request r = true →
  transcribe_file secure_filename r st
  = (Server (<[fresh (dom (objects st)) :=
                 new_job (next_id r st) (upload_path secure_filename r fname)
                         (form_params r).1.1 (form_params r).1.2 (req_now r)]>
               (objects st))
            (<[next_id r st := fresh (dom (objects st))]> (transcription_jobs st))
            (S (job_counter st))
            (<[upload_path secure_filename r fname := Entry (req_now r) true]> (files st))
            (workers st ++ [Spawned (next_id r st)]),
     Accepted (next_id r st)
              ("Transcription job created. Use /status/" ++ next_id r st
               ++ " to check progress.")).
Proof.
  unfold valid_request, transcribe_file. intros -> Hv.
  destruct (String.eqb fname ""); [discriminate|].
  destruct (allowed_file fname); [|discriminate].
  destruct (form_params r) as [[eng lang] model]. simpl in Hv.
  rewrite Hv. reflexivity.
Qed.

Lemma delete_job_shape (id : string) (st : server) :
  ∃ d' resp,
    delete_job id st
    = (Server (objects st) (transcription_jobs st) (job_counter st) d' (workers st), resp)
    ∨ delete_job id st
    = (Server (objects st) (delete id (transcription_jobs st)) (job_counter st) d'
              (workers st), resp).
Proof.
  unfold delete_job.
  destruct (transcription_jobs st !! id) as [l|];
    [|exists (files st), (Error 404 "Job not found"); left; by destruct st].
  destruct (objects st !! l) as [job|];
    [|exists (files st), (Error 500 "Internal server error"); left; by destruct st].
  match goal with |- context [let (d, _) := ?c in _] => destruct c as [d' o] end.
  exists d', (Message "Job deleted successfully"). right. reflexivity.
Qed.

Lemma inv_create (r : transcribe_request) (st : server) (fname : string) :
  inv st →
  inv (Server (<[fresh (dom (objects st)) :=
                 new_job (next_id r st) (upload_path secure_filename r fname)
                         (form_params r).1.1 (form_params r).1.2 (req_now r)]>
               (objects st))
            (<[next_id r st := fresh (dom (objects st))]> (transcription_jobs st))
            (S (job_counter st))
            (<[upload_path secure_filename r fname := Entry (req_now r) true]> (files st))
            (workers st ++ [Spawned (next_id r st)])).
Proof.
  intros [Hreg Hsp Hrun Hnd Hcnt].
  set (l := fresh (dom (objects st))). set (id := next_id r st).
  assert (objects st !! l = None) as Hfresh
    by (apply not_elem_of_dom, is_fresh).
  assert (∀ l0 j0, objects st !! l0 = Some j0 → l ≠ l0) as Hold
    by (intros l0 j0 H0 <-; congruence).
  split; simpl.
  - intros id0 l0 H0. destruct (decide (id = id0)) as [<-|Hne].
    + rewrite lookup_insert_eq in H0. injection H0 as <-.
      rewrite lookup_insert_eq. eexists. split; [done|]. split; [done|].
      apply job_ok_new.
    + rewrite lookup_insert_ne in H0 by done.
      destruct (Hreg _ _ H0) as (j0 & Hj0 & Hrest).
      rewrite lookup_insert_ne by eauto. eauto.
  - intros tid0 id0 l0 Hw0 H0.
    destruct (decide (id = id0)) as [<-|Hne].
    + rewrite lookup_insert_eq in H0. injection H0 as <-.
      rewrite lookup_insert_eq. eexists. split; done.
    + rewrite lookup_insert_ne in H0 by done.
      apply lookup_app_Some in Hw0 as [Hw0|[_ Hw0]].
      * destruct (Hsp _ _ _ Hw0 H0) as (j0 & Hj0 & Hs0).
        rewrite lookup_insert_ne by eauto. eauto.
      * apply list_lookup_singleton_Some in Hw0 as [_ Hw0]. congruence.
  - intros tid0 id0 l0 Hw0.
    apply lookup_app_Some in Hw0 as [Hw0|[_ Hw0]].
    + destruct (Hrun _ _ _ Hw0) as (j0 & Hj0 & Hrest).
      rewrite lookup_insert_ne by eauto. eauto.
    + apply list_lookup_singleton_Some in Hw0 as [_ Hw0]. discriminate.
  - rewrite fmap_app. apply NoDup_app. split; [done|]. split; [|apply NoDup_singleton].
    intros i Hi Hi'. simpl in Hi'. apply list_elem_of_singleton in Hi'. subst i.
    destruct (Hcnt _ Hi) as (n & h & Hle & E).
    apply job_name_inj in E. lia.
  - intros i Hi. rewrite fmap_app in Hi. apply elem_of_app in Hi as [Hi|Hi].
    + destruct (Hcnt _ Hi) as (n & h & Hle & E). exists n, h. split; [lia | done].
    + simpl in Hi. apply list_elem_of_singleton in Hi. subst i.
      exists (S (job_counter st)), (req_uuid_job r). split; [lia | done].
Qed.

Lemma step_inv (o : op) (st : server) :
  inv st → inv (step secure_filename o st).1.
Proof.
  intros Hinv. destruct o as [now|r|i|i k| |i|now|tid|tid task p|tid b now|f]; simpl.
  - done.
  - destruct (valid_request r) eqn:Hv.
    + unfold valid_request in Hv.
      destruct (req_file r) as [fname|] eqn:Hf; [|discriminate].
      rewrite (transcribe_file_accept r st fname Hf); [by apply inv_create|].
      unfold valid_request. by rewrite Hf.
    + destruct (transcribe_file_reject r st Hv) as [msg ->]. done.
  - unfold get_job_status. destruct (transcription_jobs st !! i); [|done].
    by destruct (objects st !! n).
  - unfold download_file. destruct (transcription_jobs st !! i); [|done].
    destruct (objects st !! n); [|done].
    destruct (negb _); [done|]. destruct (negb _); [done|].
    destruct (output_files _ !! _); [|done]. by destruct (negb _).
  - done.
  - destruct (delete_job_shape i st) as (d' & resp & [->| ->]); simpl.
    + by apply inv_shrink.
    + apply inv_shrink; [done|]. intros id0 l0 H0.
      apply lookup_delete_Some in H0. tauto.
  - unfold cleanup_old_files.
    destruct (cleanup_sweep_spec 24 now st) as (d' & nf & -> & _). simpl.
    apply inv_shrink; [done|]. intros id0 l0 H0.
    rewrite lookup_foldl_delete in H0. by destruct (bool_decide _).
  - unfold worker_start. destruct (workers st !! tid) as [[id| |]|] eqn:Hw; try done.
    unfold process_begin. destruct (transcription_jobs st !! id) as [l|] eqn:Hl.
    + destruct (inv_spawned _ Hinv _ _ _ Hw Hl) as (j & Hj & Hs).
      destruct (inv_reg _ Hinv _ _ Hl) as (j1 & Hj1 & Hi1 & Hok1).
      assert (j1 = j) as -> by congruence.
      destruct (job_ok_blank j Hok1) as (Ho & He & Ht); [by left|].
      unfold with_workers, with_objects. simpl.
      rewrite (alter_Some _ _ _ _ Hj).
      eapply (inv_worker_update st tid (Spawned id) (Running id l)); eauto.
      apply job_ok_unfinished; simpl; auto.
    + unfold with_workers. simpl.
      apply (inv_worker_returns st tid (Spawned id)); done.
  - unfold worker_report. destruct (workers st !! tid) as [[|id l|]|]; try done.
    destruct (objects st !! l) as [j|]; [|done].
    destruct (String.eqb (engine j) "autosub"); [|done].
    unfold progress_callback, bind, get, write, modify, ret.
    destruct (transcription_jobs st !! id); simpl; [|done].
    by apply inv_progress.
  - unfold worker_finish. destruct (workers st !! tid) as [[|id l|]|] eqn:Hw; try done.
    destruct (inv_running _ Hinv _ _ _ Hw) as (j & Hj & Hi & Hs & Ho & He & Ht).
    destruct (process_run_cases b now id l st j Hj)
      as [(_ & res & _ & Hpost & ->)|(e & _ & _ & ->)];
      unfold with_workers; simpl;
      [|apply (inv_worker_returns st tid (Running id l)); done].
    eapply (inv_worker_update st tid (Running id l) (Finished id)); eauto.
    + destruct res as [[[] msg] outs]; done.
    + apply job_ok_finalize; [done | done |].
      unfold adapter_post in Hpost.
      destruct (external_calls b j (files st)) as [d1 [e|v]]; simpl in Hpost.
      * subst res. done.
      * destruct (reports_success v && _ && _).
        -- subst res. simpl. eauto.
        -- destruct Hpost as (-> & _). done.
  - by apply inv_shrink.
Qed.

Lemma run_inv (ops : list op) (st : server) (log : list response) :
  inv st → inv (run secure_filename ops st log).1.
Proof.
  revert st log. induction ops as [|o ops IH]; intros st log Hinv; simpl; [done|].
  pose proof (step_inv o st Hinv) as Hs.
  destruct (step secure_filename o st) as [st' r]. by apply IH.
Qed.

Lemma reachable_inv (st : server) : reachable secure_filename st → inv st.
Proof. intros [ops <-]. apply run_inv, inv_initial. Qed.

Lemma step_issued (o : op) (st : server) :
  inv st →
  worker_id <$> workers (step secure_filename o st).1
  = ((worker_id <$> workers st)
     ++ issued_ids (option_list (step secure_filename o st).2))%list.
Proof.
  intros Hinv. destruct o as [now|r|i|i k| |i|now|tid|tid task p|tid b now|f]; simpl.
  - by rewrite app_nil_r.
  - destruct (valid_request r) eqn:Hv.
    + unfold valid_request in Hv.
      destruct (req_file r) as [fname|] eqn:Hf; [|discriminate].
      rewrite (transcribe_file_accept r st fname Hf).
      * simpl. by rewrite fmap_app.
      * unfold valid_request. by rewrite Hf.
    + destruct (transcribe_file_reject r st Hv) as [msg ->].
      simpl. by rewrite app_nil_r.
  - unfold get_job_status. destruct (transcription_jobs st !! i); [|by rewrite app_nil_r].
    destruct (objects st !! n); by rewrite app_nil_r.
  - unfold download_file. destruct (transcription_jobs st !! i); [|by rewrite app_nil_r].
    destruct (objects st !! n); [|by rewrite app_nil_r].
    destruct (negb _); [by rewrite app_nil_r|]. destruct (negb _); [by rewrite app_nil_r|].
    destruct (output_files _ !! _); [|by rewrite app_nil_r].
    destruct (negb _); by rewrite app_nil_r.
  - by rewrite app_nil_r.
  - pose proof (delete_job_response i st) as Hr.
    destruct (delete_job_shape i st) as (d' & resp & [E|E]); rewrite E in *;
      simpl in *; unfold issued_ids in *; simpl in *; by rewrite Hr, app_nil_r.
  - unfold cleanup_old_files.
    destruct (cleanup_sweep_spec 24 now st) as (d' & nf & -> & _).
    simpl. by rewrite app_nil_r.
  - rewrite app_nil_r. unfold worker_start.
    destruct (workers st !! tid) as [[id| |]|] eqn:Hw; try done.
    unfold process_begin. destruct (transcription_jobs st !! id); simpl;
      by rewrite (worker_ids_insert _ _ (Spawned id)).
  - rewrite app_nil_r. unfold worker_report.
    destruct (workers st !! tid) as [[|id l|]|]; try done.
    destruct (objects st !! l) as [j|]; [|done].
    destruct (String.eqb (engine j) "autosub"); [|done].
    unfold progress_callback, bind, get, write, modify, ret.
    by destruct (transcription_jobs st !! id).
  - rewrite app_nil_r. unfold worker_finish.
    destruct (workers st !! tid) as [[|id l|]|] eqn:Hw; try done.
    destruct (inv_running _ Hinv _ _ _ Hw) as (j & Hj & _).
    destruct (process_run_cases b now id l st j Hj)
      as [(_ & res & _ & _ & ->)|(e & _ & _ & ->)]; simpl;
      by rewrite (worker_ids_insert _ _ (Running id l)).
  - by rewrite app_nil_r.
Qed.

Lemma run_issued (ops : list op) (st : server) (log : list response) :
  inv st → issued_ids log = worker_id <$> workers st →
  issued_ids (run secure_filename ops st log).2
  = worker_id <$> workers (run secure_filename ops st log).1.
Proof.
  revert st log. induction ops as [|o ops IH]; intros st log Hinv Hlog; simpl; [done|].
  pose proof (step_inv o st Hinv) as Hs.
  pose proof (step_issued o st Hinv) as Hi.
  destruct (step secure_filename o st) as [st' r]. simpl in *.
  apply IH; [done|]. unfold issued_ids in *. by rewrite omap_app, Hlog, Hi.
Qed.

End Handlers.

(** *** The life of a record *)

Lemma status_le_refl (s : job_status) : status_le s s.
Proof. by left. Qed.

Lemma status_le_trans (a b c : job_status) :
  status_le a b → status_le b c → status_le a c.
Proof.
  unfold status_le. intros [->|[->|[-> Hb]]] Hbc; [done | by right; left |].
  destruct Hbc as [<-|[->|[-> _]]]; [by right; right | | ];
    destruct Hb; discriminate.
Qed.

Lemma evolves_refl (j : TranscriptionJob) : evolves j j.
Proof. split; try done. apply status_le_refl. Qed.

Lemma evolves_trans (a b c : TranscriptionJob) :
  evolves a b → evolves b c → evolves a c.
Proof.
  intros [A1 A2 A3 A4 A5 A6 A7] [B1 B2 B3 B4 B5 B6 B7].
  split; try congruence.
  - eapply status_le_trans; eauto.
  - intros Hfin. specialize (A7 Hfin). subst b. by apply B7.
Qed.

Lemma job_step_evolves (j j' : TranscriptionJob) : job_step j j' → evolves j j'.
Proof.
  destruct 1 as [j Hs|j p Hs He|j now [[[] msg] outs] Hs Hok];
    split; simpl; try done; unfold status_le; rewrite ?Hs; simpl;
    try (intros [?|?]; discriminate); auto 6.
Qed.

Lemma app_nonempty (a b : string) : a ≠ "" → a ++ b ≠ "".
Proof.
  destruct a as [|c a]; [done|]. intros _.
  change (String c a ++ b) with (String c (a ++ b)). discriminate.
Qed.

Lemma shape_step (j j' : TranscriptionJob) :
  record_shape j → job_step j j' → record_shape j'.
Proof.
  intros [He Hp Hw Hc Hf] Hstep.
  destruct Hstep as [j Hs|j p Hs Ha|j now [[[] msg] outs] Hs Hok]; split; simpl.
  all: try exact He.
  all: try (rewrite Hs; discriminate).
  all: try discriminate.
  - intros _ _. by apply Hp.
  - intros Ew. rewrite Ha in Ew. discriminate.
  - intros _. split; [reflexivity | exact Hok].
  - intros _. exists msg. split; [reflexivity | exact Hok].
Qed.

Lemma shape_new (id file eng lang : string) (now : Z) :
  eng = "autosub" ∨ eng = "whisper" → record_shape (new_job id file eng lang now).
Proof. intros He. split; simpl; try done; discriminate. Qed.

Lemma engine_call_finish_ok (j : TranscriptionJob) (d : disk) (out : exn + pyval)
    (r : bool * string * gmap string string) :
  adapter_post j d out r → finish_ok j r.
Proof.
  unfold adapter_post, finish_ok. destruct out as [e|v].
  - intros ->. simpl. apply app_nonempty. unfold fault_prefix.
    by destruct (String.eqb (engine j) "autosub").
  - destruct (reports_success v && _ && _).
    + intros ->. done.
    + intros (-> & _ & Hm). done.
Qed.

Lemma valid_request_engine (r : transcribe_request) :
  valid_request r = true →
  (form_params r).1.1 = "autosub" ∨ (form_params r).1.1 = "whisper".
Proof.
  unfold valid_request. destruct (req_file r); [|discriminate].
  intros H. apply andb_true_iff in H as [_ H]. apply orb_true_iff in H.
  destruct H as [H|H]; apply String.eqb_eq in H; auto.
Qed.

(** The registry's object for a running worker's identifier is the
    worker's own object. *)
Lemma running_object (st : server) (tid : nat) (id : string) (l l0 : nat) :
  inv st → linked st →
  workers st !! tid = Some (Running id l) → transcription_jobs st !! id = Some l0 →
  l0 = l.
Proof.
  intros Hinv Hlk Hw Hl0.
  destruct (inv_running _ Hinv _ _ _ Hw) as (j & Hj & Hid & _).
  destruct (inv_reg _ Hinv _ _ Hl0) as (j0 & Hj0 & Hid0 & _).
  eapply (lk_inj _ Hlk); eauto. congruence.
Qed.

Lemma linked_initial : linked initial.
Proof.
  split; simpl.
  - intros id l H. by rewrite lookup_empty in H.
  - intros l j H. by rewrite lookup_empty in H.
  - intros l l' j j' H. by rewrite lookup_empty in H.
  - intros l j H. by rewrite lookup_empty in H.
Qed.

(** The registry shrinks or the disk changes; objects and workers stay. *)
Lemma linked_shrink (st : server) (reg' : gmap string nat) (d' : disk) :
  linked st →
  (∀ id l, reg' !! id = Some l → transcription_jobs st !! id = Some l) →
  linked (Server (objects st) reg' (job_counter st) d' (workers st)).
Proof. intros [Hr Ho Hi Hs] Hsub. split; simpl; eauto. Qed.

(** One object is replaced by a later version of itself. *)
Lemma linked_update (st : server) (l : nat) (j j' : TranscriptionJob) (d' : disk)
    (ws' : list worker) :
  linked st → objects st !! l = Some j →
  job_id j' = job_id j → record_shape j' →
  worker_id <$> ws' = worker_id <$> workers st →
  linked (Server (<[l := j']> (objects st)) (transcription_jobs st) (job_counter st)
                 d' ws').
Proof.
  intros [Hr Ho Hi Hs] Hj Hid Hshape Hws. split; simpl; rewrite ?Hws.
  - done.
  - intros l0 j0. destruct (decide (l = l0)) as [<-|Hne].
    + rewrite lookup_insert_eq. intros [= <-]. rewrite Hid. eauto.
    + rewrite lookup_insert_ne by done. eauto.
  - intros l1 l2 j1 j2.
    destruct (decide (l = l1)) as [<-|Hn1], (decide (l = l2)) as [<-|Hn2];
      rewrite ?lookup_insert_eq, ?lookup_insert_ne by done; try done.
    + intros [= <-] H2 E. apply (Hi _ _ _ _ Hj H2). congruence.
    + intros H1 [= <-] E. apply (Hi _ _ _ _ H1 Hj). congruence.
    + eauto.
  - intros l0 j0. destruct (decide (l = l0)) as [<-|Hne].
    + rewrite lookup_insert_eq. by intros [= <-].
    + rewrite lookup_insert_ne by done. eauto.
Qed.

Section RecordLife.
Variable secure_filename : string → string.

Lemma linked_create (r : transcribe_request) (st : server) (fname : string) :
  inv st → linked st → valid_request r = true →
  linked (Server (<[fresh (dom (objects st)) :=
                 new_job (next_id r st) (upload_path secure_filename r fname)
                         (form_params r).1.1 (form_params r).1.2 (req_now r)]>
               (objects st))
            (<[next_id r st := fresh (dom (objects st))]> (transcription_jobs st))
            (S (job_counter st))
            (<[upload_path secure_filename r fname := Entry (req_now r) true]> (files st))
            (workers st ++ [Spawned (next_id r st)])).
Proof.
  intros Hinv [Hr Ho Hi Hs] Hv.
  set (l := fresh (dom (objects st))). set (id := next_id r st).
  assert (objects st !! l = None) as Hfresh by (apply not_elem_of_dom, is_fresh).
  assert (id ∉ worker_id <$> workers st) as Hnew.
  { intros Hin. destruct (inv_counter _ Hinv _ Hin) as (n & h & Hle & E).
    apply job_name_inj in E. lia. }
  split; simpl; rewrite ?fmap_app; simpl.
  - intros id0 l0. destruct (decide (id = id0)) as [<-|Hne].
    + intros _. apply elem_of_app. right. apply list_elem_of_here.
    + rewrite lookup_insert_ne by done. intros H0. apply elem_of_app. left. eauto.
  - intros l0 j0. destruct (decide (l = l0)) as [<-|Hne].
    + rewrite lookup_insert_eq. intros [= <-]. simpl.
      apply elem_of_app. right. apply list_elem_of_here.
    + rewrite lookup_insert_ne by done. intros H0. apply elem_of_app. left. eauto.
  - intros l1 l2 j1 j2.
    destruct (decide (l = l1)) as [<-|Hn1], (decide (l = l2)) as [<-|Hn2];
      rewrite ?lookup_insert_eq, ?lookup_insert_ne by done; try done.
    + intros [= <-] H2 E. simpl in E. exfalso. apply Hnew. rewrite E. eauto.
    + intros H1 [= <-] E. simpl in E. exfalso. apply Hnew. rewrite <- E. eauto.
    + eauto.
  - intros l0 j0. destruct (decide (l = l0)) as [<-|Hne].
    + rewrite lookup_insert_eq. intros [= <-].
      apply shape_new, valid_request_engine, Hv.
    + rewrite lookup_insert_ne by done. eauto.
Qed.

(** What a step does to an object that is already there. *)
Lemma heap_step (o : op) (st : server) (l : nat) (j : TranscriptionJob) :
  inv st → linked st → objects st !! l = Some j →
  ∃ j', objects (step secure_filename o st).1 !! l = Some j'
        ∧ (j' = j ∨ job_step j j').
Proof.
  intros Hinv Hlk Hj.
  destruct o as [now|r|i|i k| |i|now|tid|tid task p|tid b now|f]; simpl.
  - eauto.
  - destruct (valid_request r) eqn:Hv.
    + pose proof Hv as Hv'. unfold valid_request in Hv'.
      destruct (req_file r) as [fname|] eqn:Hf; [|discriminate].
      rewrite (transcribe_file_accept secure_filename r st fname Hf Hv). simpl.
      rewrite lookup_insert_ne; [eauto|].
      intros E. rewrite <- E in Hj.
      assert (objects st !! fresh (dom (objects st)) = None)
        by (apply not_elem_of_dom, is_fresh). congruence.
    + destruct (transcribe_file_reject secure_filename r st Hv) as [msg ->]. eauto.
  - unfold get_job_status. destruct (transcription_jobs st !! i); [|eauto].
    destruct (objects st !! n); eauto.
  - unfold download_file. destruct (transcription_jobs st !! i); [|eauto].
    destruct (objects st !! n); [|eauto].
    destruct (negb _); [eauto|]. destruct (negb _); [eauto|].
    destruct (output_files _ !! _); [|eauto]. destruct (negb _); eauto.
  - eauto.
  - destruct (delete_job_shape i st) as (d' & resp & [->| ->]); simpl; eauto.
  - unfold cleanup_old_files.
    destruct (cleanup_sweep_spec 24 now st) as (d' & nf & -> & _). simpl. eauto.
  - unfold worker_start. destruct (workers st !! tid) as [[id| |]|] eqn:Hw; eauto.
    unfold process_begin. destruct (transcription_jobs st !! id) as [l0|] eqn:Hl0;
      simpl; [|eauto].
    destruct (decide (l0 = l)) as [->|Hne].
    + rewrite lookup_alter_eq, Hj. simpl. eexists. split; [reflexivity|].
      right. constructor.
      destruct (inv_spawned _ Hinv _ _ _ Hw Hl0) as (j0 & Hj0 & Hs). congruence.
    + rewrite lookup_alter_ne by done. eauto.
  - unfold worker_report. destruct (workers st !! tid) as [[|id lw|]|] eqn:Hw; eauto.
    destruct (objects st !! lw) as [jw|] eqn:Hjw; [|eauto].
    destruct (String.eqb (engine jw) "autosub") eqn:Ea; [|eauto].
    apply String.eqb_eq in Ea.
    unfold progress_callback, bind, get, write, modify, ret.
    destruct (transcription_jobs st !! id) as [l0|] eqn:Hl0; simpl; [|eauto].
    assert (l0 = lw) as -> by (eapply running_object; eauto).
    destruct (decide (lw = l)) as [->|Hne].
    + rewrite lookup_alter_eq, Hj. simpl. eexists. split; [reflexivity|].
      right. assert (jw = j) as -> by congruence. constructor; [|done].
      destruct (inv_running _ Hinv _ _ _ Hw) as (j0 & Hj0 & _ & Hs & _). congruence.
    + rewrite lookup_alter_ne by done. eauto.
  - unfold worker_finish. destruct (workers st !! tid) as [[|id lw|]|] eqn:Hw; eauto.
    destruct (inv_running _ Hinv _ _ _ Hw) as (jw & Hjw & _ & Hs & _).
    destruct (process_run_cases b now id lw st jw Hjw)
      as [(_ & res & _ & Hpost & ->)|(e & _ & _ & ->)]; simpl; [|eauto].
    destruct (decide (lw = l)) as [->|Hne].
    + rewrite lookup_insert_eq. eexists. split; [reflexivity|].
      assert (jw = j) as -> by congruence.
      right. constructor; [done|]. eapply engine_call_finish_ok; eauto.
    + rewrite lookup_insert_ne by done. eauto.
  - eauto.
Qed.

Lemma step_linked (o : op) (st : server) :
  inv st → linked st → linked (step secure_filename o st).1.
Proof.
  intros Hinv Hlk.
  destruct o as [now|r|i|i k| |i|now|tid|tid task p|tid b now|f]; simpl.
  - done.
  - destruct (valid_request r) eqn:Hv.
    + pose proof Hv as Hv'. unfold valid_request in Hv'.
      destruct (req_file r) as [fname|] eqn:Hf; [|discriminate].
      rewrite (transcribe_file_accept secure_filename r st fname Hf Hv).
      by apply linked_create.
    + destruct (transcribe_file_reject secure_filename r st Hv) as [msg ->]. done.
  - unfold get_job_status. destruct (transcription_jobs st !! i); [|done].
    by destruct (objects st !! n).
  - unfold download_file. destruct (transcription_jobs st !! i); [|done].
    destruct (objects st !! n); [|done].
    destruct (negb _); [done|]. destruct (negb _); [done|].
    destruct (output_files _ !! _); [|done]. by destruct (negb _).
  - done.
  - destruct (delete_job_shape i st) as (d' & resp & [->| ->]); simpl.
    + by apply linked_shrink.
    + apply linked_shrink; [done|]. intros id0 l0 H0.
      apply lookup_delete_Some in H0. tauto.
  - unfold cleanup_old_files.
    destruct (cleanup_sweep_spec 24 now st) as (d' & nf & -> & _). simpl.
    apply linked_shrink; [done|]. intros id0 l0 H0.
    rewrite lookup_foldl_delete in H0. by destruct (bool_decide _).
  - unfold worker_start. destruct (workers st !! tid) as [[id| |]|] eqn:Hw; try done.
    unfold process_begin. destruct (transcription_jobs st !! id) as [l0|] eqn:Hl0.
    + destruct (inv_spawned _ Hinv _ _ _ Hw Hl0) as (j0 & Hj0 & Hs).
      unfold with_workers, with_objects. simpl. rewrite (alter_Some _ _ _ _ Hj0).
      eapply linked_update; eauto.
      * eapply shape_step; [eapply (lk_shape _ Hlk); eauto | by constructor].
      * by apply (worker_ids_insert _ _ (Spawned id)).
    + unfold with_workers. simpl. destruct Hlk as [Hr Ho Hi Hs].
      split; simpl; rewrite ?(worker_ids_insert _ _ (Spawned id)); eauto.
  - unfold worker_report. destruct (workers st !! tid) as [[|id lw|]|] eqn:Hw; try done.
    destruct (objects st !! lw) as [jw|] eqn:Hjw; [|done].
    destruct (String.eqb (engine jw) "autosub") eqn:Ea; [|done].
    apply String.eqb_eq in Ea.
    unfold progress_callback, bind, get, write, modify, ret.
    destruct (transcription_jobs st !! id) as [l0|] eqn:Hl0; simpl; [|done].
    assert (l0 = lw) as -> by (eapply running_object; eauto).
    unfold with_objects. rewrite (alter_Some _ _ _ _ Hjw).
    destruct (inv_running _ Hinv _ _ _ Hw) as (j0 & Hj0 & _ & Hs & _).
    assert (j0 = jw) as -> by congruence.
    eapply linked_update; eauto.
    eapply shape_step; [eapply (lk_shape _ Hlk); eauto | by constructor].
  - unfold worker_finish. destruct (workers st !! tid) as [[|id lw|]|] eqn:Hw; try done.
    destruct (inv_running _ Hinv _ _ _ Hw) as (jw & Hjw & _ & Hs & _).
    destruct (process_run_cases b now id lw st jw Hjw)
      as [(_ & res & _ & Hpost & ->)|(e & _ & _ & ->)]; unfold with_workers; simpl.
    2: { destruct Hlk as [Hr Ho Hi Hsh].
         split; simpl; rewrite ?(worker_ids_insert _ _ (Running id lw)); eauto. }
    eapply linked_update; eauto.
    + by destruct res as [[[] ?] ?].
    + eapply shape_step; [eapply (lk_shape _ Hlk); eauto|].
      constructor; [done|]. eapply engine_call_finish_ok; eauto.
    + by apply (worker_ids_insert _ _ (Running id lw)).
  - by apply linked_shrink.
Qed.

Lemma run_linked (ops : list op) (st : server) (log : list response) :
  inv st → linked st →
  inv (run secure_filename ops st log).1 ∧ linked (run secure_filename ops st log).1.
Proof.
  revert st log. induction ops as [|o ops IH]; intros st log Hinv Hlk; simpl; [done|].
  pose proof (step_inv secure_filename o st Hinv) as Hs.
  pose proof (step_linked o st Hinv Hlk) as Hl.
  destruct (step secure_filename o st) as [st' r]. by apply IH.
Qed.

Lemma reachable_linked (st : server) : reachable secure_filename st → linked st.
Proof. intros [ops <-]. apply run_linked; [apply inv_initial | apply linked_initial]. Qed.

(** Along a run an object stays in the heap and only moves forward. *)
Lemma heap_run (ops : list op) (st : server) (log : list response) (l : nat)
    (j : TranscriptionJob) :
  inv st → linked st → objects st !! l = Some j →
  ∃ j', objects (run secure_filename ops st log).1 !! l = Some j' ∧ evolves j j'.
Proof.
  revert st log j. induction ops as [|o ops IH]; intros st log j Hinv Hlk Hj; simpl.
  - exists j. split; [done | apply evolves_refl].
  - pose proof (step_inv secure_filename o st Hinv) as Hs.
    pose proof (step_linked o st Hinv Hlk) as Hl.
    destruct (heap_step o st l j Hinv Hlk Hj) as (j1 & Hj1 & Hstep).
    destruct (step secure_filename o st) as [st' r]. simpl in *.
    destruct (IH st' (log ++ option_list r)%list j1 Hs Hl Hj1) as (j' & Hj' & Hev).
    exists j'. split; [done|]. eapply evolves_trans; [|exact Hev].
    destruct Hstep as [->|Hstep]; [apply evolves_refl | by apply job_step_evolves].
Qed.

End RecordLife.

Section RecordLife2.
Variable secure_filename : string → string.

(** A registration that is there after a step was there before, or is
    the one the step created under a new identifier. *)
Lemma registry_step (o : op) (st : server) (id : string) (l : nat) :
  inv st →
  transcription_jobs (step secure_filename o st).1 !! id = Some l →
  transcription_jobs st !! id = Some l ∨ id ∉ worker_id <$> workers st.
Proof.
  intros Hinv.
  destruct o as [now|r|i|i k| |i|now|tid|tid task p|tid b now|f]; simpl.
  - auto.
  - destruct (valid_request r) eqn:Hv.
    + pose proof Hv as Hv'. unfold valid_request in Hv'.
      destruct (req_file r) as [fname|] eqn:Hf; [|discriminate].
      rewrite (transcribe_file_accept secure_filename r st fname Hf Hv). simpl.
      destruct (decide (next_id r st = id)) as [<-|Hne].
      * intros _. right. intros Hin.
        destruct (inv_counter _ Hinv _ Hin) as (n & h & Hle & E).
        apply job_name_inj in E. lia.
      * rewrite lookup_insert_ne by done. auto.
    + destruct (transcribe_file_reject secure_filename r st Hv) as [msg ->]. auto.
  - unfold get_job_status. destruct (transcription_jobs st !! i); [|auto].
    destruct (objects st !! n); auto.
  - unfold download_file. destruct (transcription_jobs st !! i); [|auto].
    destruct (objects st !! n); [|auto].
    destruct (negb _); [auto|]. destruct (negb _); [auto|].
    destruct (output_files _ !! _); [|auto]. destruct (negb _); auto.
  - auto.
  - destruct (delete_job_shape i st) as (d' & resp & [->| ->]); simpl; [auto|].
    intros H0. apply lookup_delete_Some in H0. tauto.
  - unfold cleanup_old_files.
    destruct (cleanup_sweep_spec 24 now st) as (d' & nf & -> & _). simpl.
    rewrite lookup_foldl_delete. destruct (bool_decide _); [discriminate | auto].
  - unfold worker_start. destruct (workers st !! tid) as [[i| |]|]; auto.
    unfold process_begin. destruct (transcription_jobs st !! i); simpl; auto.
  - unfold worker_report. destruct (workers st !! tid) as [[|i lw|]|]; auto.
    destruct (objects st !! lw) as [jw|]; [|auto].
    destruct (String.eqb (engine jw) "autosub"); [|auto].
    unfold progress_callback, bind, get, write, modify, ret.
    destruct (transcription_jobs st !! i); simpl; auto.
  - unfold worker_finish. destruct (workers st !! tid) as [[|i lw|]|] eqn:Hw; auto.
    destruct (inv_running _ Hinv _ _ _ Hw) as (jw & Hjw & _).
    destruct (process_run_cases b now i lw st jw Hjw)
      as [(_ & res & _ & _ & ->)|(e & _ & _ & ->)]; simpl; auto.
  - auto.
Qed.

(** A registered record at the start of a run and the record registered
    under the same identifier at its end are the same object. *)
Lemma registered_evolves (ops : list op) (st : server) (log : list response)
    (id : string) (j j' : TranscriptionJob) :
  inv st → linked st →
  lookup_job st id = Some j →
  lookup_job (run secure_filename ops st log).1 id = Some j' →
  evolves j j'.
Proof.
  intros Hinv Hlk Hj Hj'. unfold lookup_job in *.
  destruct (transcription_jobs st !! id) as [l|] eqn:Hl; [|discriminate].
  destruct (run_linked secure_filename ops st log Hinv Hlk) as [Hinv' Hlk'].
  destruct (heap_run secure_filename ops st log l j Hinv Hlk Hj) as (j1 & Hj1 & Hev).
  destruct (transcription_jobs (run secure_filename ops st log).1 !! id)
    as [l'|] eqn:Hl'; [|discriminate].
  destruct (inv_reg _ Hinv _ _ Hl) as (j0 & Hj0 & Hid & _).
  destruct (inv_reg _ Hinv' _ _ Hl') as (j2 & Hj2 & Hid2 & _).
  assert (j0 = j) as -> by congruence. assert (j2 = j') as -> by congruence.
  assert (l' = l) as ->.
  { eapply (lk_inj _ Hlk'); eauto. rewrite Hid2, (ev_job_id _ _ Hev). done. }
  congruence.
Qed.

(** An issued identifier that is not registered stays unregistered. *)
Lemma unregistered_stays (ops : list op) (st : server) (log : list response)
    (id : string) :
  inv st → id ∈ worker_id <$> workers st → transcription_jobs st !! id = None →
  transcription_jobs (run secure_filename ops st log).1 !! id = None.
Proof.
  revert st log. induction ops as [|o ops IH]; intros st log Hinv Hin Hnone; simpl;
    [done|].
  pose proof (step_inv secure_filename o st Hinv) as Hs.
  pose proof (step_issued secure_filename o st Hinv) as Hi.
  pose proof (registry_step o st id) as Hr.
  destruct (step secure_filename o st) as [st' r]. simpl in *.
  apply IH; [done | rewrite Hi; apply elem_of_app; by left |].
  destruct (transcription_jobs st' !! id) as [l|] eqn:Hl; [|done].
  destruct (Hr l Hinv eq_refl) as [?|?]; [congruence | done].
Qed.

End RecordLife2.

(** *** Worker threads that have ended *)

Section Ended.
Variable secure_filename : string → string.

(** A worker thread that has ended stays ended. *)
Lemma step_ended (o : op) (st : server) (tid : nat) (id : string) :
  inv st → workers st !! tid = Some (Finished id) →
  workers (step secure_filename o st).1 !! tid = Some (Finished id).
Proof.
  intros Hinv Hw.
  assert (∀ tid0 w, (∀ i, workers st !! tid0 ≠ Some (Finished i)) →
            <[tid0 := w]> (workers st) !! tid = Some (Finished id)) as Hins.
  { intros tid0 w Hn. rewrite list_lookup_insert_ne; [done|]. intros ->. by eapply Hn. }
  destruct o as [now|r|i|i k| |i|now|tid0|tid0 task p|tid0 b now|f]; simpl.
  - done.
  - destruct (valid_request r) eqn:Hv.
    + pose proof Hv as Hv'. unfold valid_request in Hv'.
      destruct (req_file r) as [fname|] eqn:Hf; [|discriminate].
      rewrite (transcribe_file_accept secure_filename r st fname Hf Hv). simpl.
      by apply lookup_app_l_Some.
    + by destruct (transcribe_file_reject secure_filename r st Hv) as [msg ->].
  - unfold get_job_status. destruct (transcription_jobs st !! i); [|done].
    by destruct (objects st !! n).
  - unfold download_file. destruct (transcription_jobs st !! i); [|done].
    destruct (objects st !! n); [|done].
    destruct (negb _); [done|]. destruct (negb _); [done|].
    destruct (output_files _ !! _); [|done]. by destruct (negb _).
  - done.
  - by destruct (delete_job_shape i st) as (d' & resp & [->| ->]).
  - unfold cleanup_old_files.
    by destruct (cleanup_sweep_spec 24 now st) as (d' & nf & -> & _).
  - unfold worker_start. destruct (workers st !! tid0) as [[i| |]|] eqn:Hw0; try done.
    unfold process_begin. destruct (transcription_jobs st !! i); simpl;
      apply Hins; intros i0; congruence.
  - unfold worker_report. destruct (workers st !! tid0) as [[|i lw|]|]; try done.
    destruct (objects st !! lw) as [jw|]; [|done].
    destruct (String.eqb (engine jw) "autosub"); [|done].
    unfold progress_callback, bind, get, write, modify, ret.
    by destruct (transcription_jobs st !! i).
  - unfold worker_finish. destruct (workers st !! tid0) as [[|i lw|]|] eqn:Hw0; try done.
    destruct (inv_running _ Hinv _ _ _ Hw0) as (jw & Hjw & _).
    destruct (process_run_cases b now i lw st jw Hjw)
      as [(_ & res & _ & _ & ->)|(e & _ & _ & ->)]; simpl;
      apply Hins; intros i0; congruence.
  - done.
Qed.

(** No step touches the object of a worker thread that has ended. *)
Lemma ended_step (o : op) (st : server) (tid l : nat) (j : TranscriptionJob) :
  inv st → linked st →
  workers st !! tid = Some (Finished (job_id j)) → objects st !! l = Some j →
  objects (step secure_filename o st).1 !! l = Some j.
Proof.
  intros Hinv Hlk Hw Hj.
  assert (∀ tid0 w l0 j0, workers st !! tid0 = Some w → (∀ i, w ≠ Finished i) →
            objects st !! l0 = Some j0 → job_id j0 = worker_id w → l0 ≠ l) as Hother.
  { intros tid0 w l0 j0 Hw0 Hn Hj0 Hid ->.
    assert (j0 = j) as -> by congruence.
    assert (tid0 = tid) as ->.
    { eapply worker_unique; [apply (inv_nodup _ Hinv) | exact Hw0 | exact Hw |].
      by rewrite <- Hid. }
    rewrite Hw in Hw0. injection Hw0 as <-. by eapply Hn. }
  destruct o as [now|r|i|i k| |i|now|tid0|tid0 task p|tid0 b now|f]; simpl.
  - done.
  - destruct (valid_request r) eqn:Hv.
    + pose proof Hv as Hv'. unfold valid_request in Hv'.
      destruct (req_file r) as [fname|] eqn:Hf; [|discriminate].
      rewrite (transcribe_file_accept secure_filename r st fname Hf Hv). simpl.
      rewrite lookup_insert_ne; [done|].
      intros E. rewrite <- E in Hj.
      assert (objects st !! fresh (dom (objects st)) = None)
        by (apply not_elem_of_dom, is_fresh). congruence.
    + by destruct (transcribe_file_reject secure_filename r st Hv) as [msg ->].
  - unfold get_job_status. destruct (transcription_jobs st !! i); [|done].
    by destruct (objects st !! n).
  - unfold download_file. destruct (transcription_jobs st !! i); [|done].
    destruct (objects st !! n); [|done].
    destruct (negb _); [done|]. destruct (negb _); [done|].
    destruct (output_files _ !! _); [|done]. by destruct (negb _).
  - done.
  - by destruct (delete_job_shape i st) as (d' & resp & [->| ->]).
  - unfold cleanup_old_files.
    by destruct (cleanup_sweep_spec 24 now st) as (d' & nf & -> & _).
  - unfold worker_start. destruct (workers st !! tid0) as [[i| |]|] eqn:Hw0; try done.
    unfold process_begin. destruct (transcription_jobs st !! i) as [l0|] eqn:Hl0;
      simpl; [|done].
    destruct (inv_reg _ Hinv _ _ Hl0) as (j0 & Hj0 & Hid0 & _).
    rewrite lookup_alter_ne; [done|].
    eapply (Hother tid0 (Spawned i)); eauto.
  - unfold worker_report. destruct (workers st !! tid0) as [[|i lw|]|] eqn:Hw0; try done.
    destruct (objects st !! lw) as [jw|] eqn:Hjw; [|done].
    destruct (String.eqb (engine jw) "autosub"); [|done].
    unfold progress_callback, bind, get, write, modify, ret.
    destruct (transcription_jobs st !! i) as [l0|] eqn:Hl0; simpl; [|done].
    destruct (inv_reg _ Hinv _ _ Hl0) as (j0 & Hj0 & Hid0 & _).
    rewrite lookup_alter_ne; [done|].
    eapply (Hother tid0 (Running i lw)); eauto.
  - unfold worker_finish. destruct (workers st !! tid0) as [[|i lw|]|] eqn:Hw0; try done.
    destruct (inv_running _ Hinv _ _ _ Hw0) as (jw & Hjw & Hidw & _).
    destruct (process_run_cases b now i lw st jw Hjw)
      as [(_ & res & _ & _ & ->)|(e & _ & _ & ->)]; simpl; [|done].
    rewrite lookup_insert_ne; [done|].
    eapply (Hother tid0 (Running i lw)); eauto.
  - done.
Qed.

Lemma ended_run (ops : list op) (st : server) (log : list response) (tid l : nat)
    (j : TranscriptionJob) :
  inv st → linked st →
  workers st !! tid = Some (Finished (job_id j)) → objects st !! l = Some j →
  objects (run secure_filename ops st log).1 !! l = Some j.
Proof.
  revert st log. induction ops as [|o ops IH]; intros st log Hinv Hlk Hw Hj; simpl;
    [done|].
  pose proof (step_inv secure_filename o st Hinv) as Hs.
  pose proof (step_linked secure_filename o st Hinv Hlk) as Hl.
  pose proof (step_ended o st tid _ Hinv Hw) as Hw'.
  pose proof (ended_step o st tid l j Hinv Hlk Hw Hj) as Hj'.
  destruct (step secure_filename o st) as [st' r]. by apply IH.
Qed.

(** The record of a worker thread that has ended is the same whenever
    its identifier resolves later. *)
Lemma ended_registered (ops : list op) (st : server) (log : list response)
    (tid : nat) (id : string) (j j' : TranscriptionJob) :
  inv st → linked st →
  workers st !! tid = Some (Finished id) →
  lookup_job st id = Some j →
  lookup_job (run secure_filename ops st log).1 id = Some j' →
  j' = j.
Proof.
  intros Hinv Hlk Hw Hj Hj'. unfold lookup_job in *.
  destruct (transcription_jobs st !! id) as [l|] eqn:Hl; [|discriminate].
  destruct (inv_reg _ Hinv _ _ Hl) as (j0 & Hj0 & Hid & _).
  assert (j0 = j) as -> by congruence. subst id.
  pose proof (ended_run ops st log tid l j Hinv Hlk Hw Hj) as Hkept.
  destruct (run_linked secure_filename ops st log Hinv Hlk) as [Hinv' Hlk'].
  destruct (transcription_jobs (run secure_filename ops st log).1 !! job_id j)
    as [l'|] eqn:Hl'; [|discriminate].
  destruct (inv_reg _ Hinv' _ _ Hl') as (j2 & Hj2 & Hid2 & _).
  assert (j2 = j') as -> by congruence.
  assert (l' = l) as -> by (eapply (lk_inj _ Hlk'); eauto).
  congruence.
Qed.

End Ended.

(** *** Deleting a job *)

Lemma remove_quietly_spec (p : string) (d : disk) :
  remove_quietly p d
  = (match d !! p with
     | Some e => if removable e then delete p d else d
     | None => d
     end, inr tt).
Proof.
  unfold remove_quietly, try_except, bind, get, path_exists, os_remove, ret.
  destruct (d !! p) as [e|] eqn:Hp; simpl; [|done].
  rewrite Hp. by destruct (removable e).
Qed.

Lemma remove_loop (paths : list string) (d : disk) :
  ∃ d', for_each paths (fun p _ => remove_quietly p) tt d = (d', inr tt)
        ∧ ∀ q, d' !! q = match d !! q with
                         | Some e => if bool_decide (q ∈ paths) && removable e
                                     then None else Some e
                         | None => None
                         end.
Proof.
  revert d. induction paths as [|p t IH]; intros d.
  - exists d. split; [done|]. intros q. by destruct (d !! q).
  - simpl. unfold bind. rewrite remove_quietly_spec.
    set (d1 := match d !! p with
               | Some e => if removable e then delete p d else d
               | None => d
               end).
    destruct (IH d1) as (d' & Hrun & Hlk). exists d'. split; [done|].
    intros q. rewrite Hlk. unfold d1. destruct (decide (q = p)) as [->|Hne].
    + rewrite (bool_decide_eq_true_2 (p ∈ p :: t)) by apply list_elem_of_here.
      destruct (d !! p) as [e|] eqn:Hp; [|by rewrite Hp].
      destruct (removable e) eqn:Hrm.
      * by rewrite lookup_delete_eq.
      * rewrite Hp, Hrm. by rewrite !andb_false_r.
    + rewrite (bool_decide_ext (q ∈ p :: t) (q ∈ t))
        by (rewrite elem_of_cons; split; [intros [?|?]; [congruence | done] | by right]).
      destruct (d !! p) as [e|] eqn:Hp; [|done].
      destruct (removable e); [by rewrite lookup_delete_ne | done].
Qed.

Lemma elem_of_map_values {A} (m : gmap string A) (x : A) :
  x ∈ (map_to_list m).*2 ↔ ∃ k, m !! k = Some x.
Proof.
  rewrite list_elem_of_fmap. split.
  - intros ([k y] & -> & Hin). exists k. by apply elem_of_map_to_list.
  - intros [k Hk]. exists (k, x). split; [done|]. by apply elem_of_map_to_list.
Qed.

Lemma delete_job_spec (id : string) (st : server) (l : nat) (j : TranscriptionJob) :
  transcription_jobs st !! id = Some l → objects st !! l = Some j →
  ∃ d', delete_job id st
        = (Server (objects st) (delete id (transcription_jobs st)) (job_counter st)
                  d' (workers st), Message "Job deleted successfully")
        ∧ ∀ q, d' !! q
               = match files st !! q with
                 | Some e =>
                     if bool_decide (q = filename j ∨ q ∈ (map_to_list (output_files j)).*2)
                        && removable e
                     then None else Some e
                 | None => None
                 end.
Proof.
  intros Hl Hj. unfold delete_job. rewrite Hl, Hj. unfold bind.
  destruct (remove_loop (map_to_list (output_files j)).*2 (files st))
    as (d1 & -> & Hlk1).
  rewrite remove_quietly_spec. eexists. split; [reflexivity|].
  intros q. simpl. destruct (decide (q = filename j)) as [->|Hne].
  - rewrite bool_decide_eq_true_2 by (by left). simpl.
    destruct (d1 !! filename j) as [e|] eqn:H1.
    + assert (files st !! filename j = Some e) as H0.
      { rewrite Hlk1 in H1. destruct (files st !! filename j) as [e0|]; [|done].
        by destruct (_ && _). }
      rewrite H0. destruct (removable e); [by rewrite lookup_delete_eq | done].
    + rewrite H1. rewrite Hlk1 in H1.
      destruct (files st !! filename j) as [e0|]; [|done].
      destruct (bool_decide _) eqn:Hb; simpl in H1; [|done].
      by destruct (removable e0).
  - rewrite (bool_decide_ext (q = filename j ∨ q ∈ (map_to_list (output_files j)).*2)
               (q ∈ (map_to_list (output_files j)).*2)) by tauto.
    rewrite <- Hlk1.
    destruct (d1 !! filename j) as [e|]; [|done].
    destruct (removable e); [by rewrite lookup_delete_ne | done].
Qed.

Lemma length_omap_total {A B} (f : A → option B) (l : list A) :
  (∀ x, x ∈ l → is_Some (f x)) → length (omap f l) = length l.
Proof.
  induction l as [|x l IH]; intros Hall; simpl; [done|].
  destruct (Hall x) as [y Hy]; [apply list_elem_of_here|]. rewrite Hy. simpl.
  f_equal. apply IH. intros z Hz. apply Hall. by right.
Qed.


(** *** The error details *)

Local Ltac detail :=
  eexists; split; [reflexivity|]; simpl;
  repeat match goal with
         | H : _ = true |- _ => rewrite H
         | H : _ = false |- _ => rewrite H
         end;
  simpl; repeat split; intros; solve [discriminate | reflexivity].

Lemma engine_call_detail (b : backends) (j : TranscriptionJob) (id : string)
    (d : disk) (v : pyval) :
  engine j = "autosub" ∨ engine j = "whisper" →
  (external_calls b j d).2 = inr v →
  ∃ r, engine_call b j id d = ((external_calls b j d).1, inr r)
    ∧ (py_is_minus_one v = true → r = (false, "Transcription was cancelled", ∅))
    ∧ (py_is_minus_one v = false → py_truth v = false →
       r = (false, "Failed to generate subtitles", ∅))
    ∧ (reports_success v = true →
       path_exists (external_calls b j d).1 (srt_path j) = false →
       r = (false, "SRT file was not created", ∅))
    ∧ (reports_success v = true →
       path_exists (external_calls b j d).1 (srt_path j) = true →
       path_exists (external_calls b j d).1 (txt_path j) = false →
       r = (false, "TXT file was not created", ∅)).
Proof.
  intros Heng. unfold engine_call, external_calls, reports_success.
  destruct (String.eqb (engine j) "autosub") eqn:Ea.
  - unfold transcribe_with_autosub, try_except, bind, ret, get.
    fold (srt_path j) (txt_path j).
    destruct (Ctr_Autosub_init b d) as [d1 [e|[]]]; simpl; [discriminate|].
    destruct (Ctr_Autosub_generate_subtitles b _ _ _ d1) as [d2 [e|v0]]; simpl;
      [discriminate|].
    destruct (py_is_minus_one v0) eqn:Hm; simpl; [intros [= <-]; detail|].
    destruct (py_truth v0) eqn:Ht; simpl; [|intros [= <-]; detail].
    destruct (SRTParser_extractTextFromSRT b _ d2) as [d3 [e|[]]]; simpl;
      [discriminate|].
    intros [= <-].
    destruct (path_exists d3 (srt_path j)) eqn:Hs; simpl; [|detail].
    destruct (path_exists d3 (txt_path j)) eqn:Hx; simpl; detail.
  - destruct (String.eqb (engine j) "whisper") eqn:Ew.
    + unfold transcribe_with_whisper, try_except, bind, ret, get.
      fold (srt_path j) (txt_path j).
      destruct (CtrWhisper_initialize b d) as [d1 [e|[]]]; simpl; [discriminate|].
      destruct (CtrWhisper_generate_subtitles b _ _ _ _ _ d1) as [d2 [e|v0]]; simpl;
        [discriminate|].
      intros [= <-].
      destruct (py_is_minus_one v0) eqn:Hm; simpl; [detail|].
      destruct (py_truth v0) eqn:Ht; simpl; [|detail].
      destruct (path_exists d2 (srt_path j)) eqn:Hs; simpl; [|detail].
      destruct (path_exists d2 (txt_path j)) eqn:Hx; simpl; detail.
    + apply String.eqb_neq in Ea, Ew. destruct Heng; done.
Qed.

(** *** Splitting at the last separator *)

Lemma rsplit1_None (c : ascii) (s : string) :
  Str.rsplit1 c s = None ↔ Str.lacks c s.
Proof.
  induction s as [|d s IH]; simpl; [done|].
  destruct (Str.rsplit1 c s) as [[a b]|].
  - split; [discriminate|]. intros [_ Hs]. apply IH in Hs. discriminate.
  - destruct (Ascii.eqb_spec d c) as [->|Hne].
    + split; [discriminate | intros [? _]; done].
    + split; [intros _; split; [done | by apply IH] | done].
Qed.

Lemma rsplit1_Some (c : ascii) (s a b : string) :
  Str.rsplit1 c s = Some (a, b) → s = a ++ String c b ∧ Str.lacks c b.
Proof.
  revert a. induction s as [|d s IH]; intros a; simpl; [discriminate|].
  destruct (Str.rsplit1 c s) as [[a' b']|] eqn:Hs.
  - intros [= <- <-]. destruct (IH a' eq_refl) as [-> Hb]. done.
  - destruct (Ascii.eqb_spec d c) as [->|Hne]; [|discriminate].
    intros [= <- <-]. split; [done|]. by apply rsplit1_None.
Qed.

Lemma rsplit1_app (c : ascii) (a b : string) :
  Str.lacks c b → Str.rsplit1 c (a ++ String c b) = Some (a, b).
Proof.
  intros Hb. induction a as [|x a IH].
  - change ("" ++ String c b) with (String c b). simpl.
    apply rsplit1_None in Hb. rewrite Hb. by rewrite Ascii.eqb_refl.
  - change (String x a ++ String c b) with (String x (a ++ String c b)). simpl.
    by rewrite IH.
Qed.

Lemma lacks_app (c : ascii) (a b : string) :
  Str.lacks c (a ++ b) ↔ Str.lacks c a ∧ Str.lacks c b.
Proof.
  induction a as [|x a IH].
  - change ("" ++ b) with b. simpl. tauto.
  - change (String x a ++ b) with (String x (a ++ b)). simpl. tauto.
Qed.

Lemma has_char_lacks (c : ascii) (s : string) :
  has_char c s = false ↔ Str.lacks c s.
Proof.
  induction s as [|d s IH]; simpl; [done|].
  destruct (Ascii.eqb_spec d c) as [->|Hne]; simpl.
  - split; [discriminate | intros [? _]; done].
  - rewrite IH. tauto.
Qed.

Lemma path_stem_lacks_slash (p : string) : Str.lacks "/" (path_stem p).
Proof.
  assert (Str.lacks "/" (path_name p)) as Hname.
  { unfold path_name. destruct (Str.rsplit1 "/" p) as [[a n]|] eqn:E.
    - by apply rsplit1_Some in E as [_ ?].
    - by apply rsplit1_None. }
  unfold path_stem. destruct (Str.rsplit1 "." (path_name p)) as [[a b]|] eqn:E; [|done].
  destruct (_ || _); [done|].
  apply rsplit1_Some in E as [E _]. rewrite E in Hname.
  by apply lacks_app in Hname as [? _].
Qed.

(** The declared output paths lie directly inside the output folder. *)
Lemma output_path_in_folder (stem suffix : string) :
  Str.lacks "/" stem → Str.lacks "/" suffix → suffix ≠ "" →
  in_folder OUTPUT_FOLDER (path_join OUTPUT_FOLDER (stem ++ suffix)) = true.
Proof.
  intros Hs Hx Hne. unfold in_folder, path_join.
  assert (strip_prefix (OUTPUT_FOLDER ++ "/") (OUTPUT_FOLDER ++ "/" ++ stem ++ suffix)
          = Some (stem ++ suffix)) as ->.
  { apply strip_prefix_Some. by rewrite append_assoc_string. }
  apply andb_true_iff. split.
  - apply negb_true_iff, String.eqb_neq. intros E.
    destruct stem as [|c stem]; [|discriminate]. done.
  - apply negb_true_iff, has_char_lacks, lacks_app. done.
Qed.

(** *** The counter *)

Lemma issued_ids_app (a b : list response) :
  issued_ids (a ++ b) = (issued_ids a ++ issued_ids b)%list.
Proof. unfold issued_ids. apply omap_app. Qed.

Section Counter.
Variable secure_filename : string → string.

(** A step either hands out no identifier and leaves the counter, or
    hands out the identifier of the next counter value. *)
Lemma counter_step (o : op) (st : server) :
  inv st →
  (job_counter (step secure_filename o st).1 = job_counter st
   ∧ issued_ids (option_list (step secure_filename o st).2) = [])
  ∨ (job_counter (step secure_filename o st).1 = S (job_counter st)
     ∧ ∃ h, issued_ids (option_list (step secure_filename o st).2)
            = [job_name (S (job_counter st)) h]).
Proof.
  intros Hinv. destruct o as [now|r|i|i k| |i|now|tid|tid task p|tid b now|f]; simpl.
  - by left.
  - destruct (valid_request r) eqn:Hv.
    + pose proof Hv as Hv'. unfold valid_request in Hv'.
      destruct (req_file r) as [fname|] eqn:Hf; [|discriminate].
      rewrite (transcribe_file_accept secure_filename r st fname Hf Hv). simpl.
      right. split; [done|]. by exists (req_uuid_job r).
    + destruct (transcribe_file_reject secure_filename r st Hv) as [msg ->]. by left.
  - unfold get_job_status. destruct (transcription_jobs st !! i); [|by left].
    destruct (objects st !! n); by left.
  - unfold download_file. destruct (transcription_jobs st !! i); [|by left].
    destruct (objects st !! n); [|by left].
    destruct (negb _); [by left|]. destruct (negb _); [by left|].
    destruct (output_files _ !! _); [|by left]. destruct (negb _); by left.
  - by left.
  - left. pose proof (delete_job_response i st) as Hr.
    destruct (delete_job_shape i st) as (d' & resp & [E|E]); rewrite E in *; done.
  - unfold cleanup_old_files.
    destruct (cleanup_sweep_spec 24 now st) as (d' & nf & -> & _). by left.
  - left. split; [|done]. unfold worker_start.
    destruct (workers st !! tid) as [[i| |]|]; try done.
    unfold process_begin. by destruct (transcription_jobs st !! i).
  - left. split; [|done]. unfold worker_report.
    destruct (workers st !! tid) as [[|i lw|]|]; try done.
    destruct (objects st !! lw) as [jw|]; [|done].
    destruct (String.eqb (engine jw) "autosub"); [|done].
    unfold progress_callback, bind, get, write, modify, ret.
    by destruct (transcription_jobs st !! i).
  - left. split; [|done]. unfold worker_finish.
    destruct (workers st !! tid) as [[|i lw|]|] eqn:Hw; try done.
    destruct (inv_running _ Hinv _ _ _ Hw) as (jw & Hjw & _).
    by destruct (process_run_cases b now i lw st jw Hjw)
      as [(_ & res & _ & _ & ->)|(e & _ & _ & ->)].
  - by left.
Qed.

Lemma run_numbered (ops : list op) (st : server) (log : list response) :
  inv st →
  length (issued_ids log) = job_counter st →
  (∀ k i, issued_ids log !! k = Some i → ∃ h, i = job_name (S k) h) →
  length (issued_ids (run secure_filename ops st log).2)
  = job_counter (run secure_filename ops st log).1
  ∧ ∀ k i, issued_ids (run secure_filename ops st log).2 !! k = Some i →
           ∃ h, i = job_name (S k) h.
Proof.
  revert st log. induction ops as [|o ops IH]; intros st log Hinv Hlen Hnum; simpl;
    [done|].
  pose proof (step_inv secure_filename o st Hinv) as Hs.
  pose proof (counter_step o st Hinv) as Hc.
  destruct (step secure_filename o st) as [st' r]. cbn [fst snd] in *.
  apply IH; [done | |]; rewrite issued_ids_app.
  - rewrite length_app, Hlen.
    destruct Hc as [[Hc1 Hc2]|[Hc1 [h Hc2]]]; rewrite Hc1, Hc2; simpl; lia.
  - intros k i Hk. destruct Hc as [[_ Hc2]|[_ [h Hc2]]]; rewrite Hc2 in Hk.
    + rewrite app_nil_r in Hk. eauto.
    + apply lookup_app_Some in Hk as [Hk|[Hge Hk]]; [eauto|].
      apply list_lookup_singleton_Some in Hk as [Hk <-].
      exists h. f_equal. lia.
Qed.

End Counter.

(** ** Concrete runs *)

Example allowed_file_wav : allowed_file "talk.WAV" = true.
Proof. vm_compute. reflexivity. Qed.

Example allowed_file_txt : allowed_file "notes.txt" = false.
Proof. vm_compute. reflexivity. Qed.

Example allowed_file_without_dot : allowed_file "mp3" = false.
Proof. vm_compute. reflexivity. Qed.

(** [str.lower] takes U+212A KELVIN SIGN to the letter k, so an extension
    spelled with it is read as [mkv], and the upload is accepted. *)
Example lower_kelvin :
  Str.lower kelvin_ext = "mkv"
  ∧ file_ext kelvin_name = "mkv"
  ∧ allowed_file kelvin_name = true
  ∧ status_code (transcribe_file keep_name kelvin_request initial).2 = 202.
Proof. vm_compute. repeat split; reflexivity. Qed.

(** Other bytes outside ASCII never make an accepted extension. *)
Example lower_outside_ascii :
  allowed_file (String "a" (String "." (String "m" (String "p"
                 (String (ascii_of_nat 195) (String (ascii_of_nat 137) "")))))) = false.
Proof. vm_compute. reflexivity. Qed.

Example path_stem_samples :
  path_stem "uploads/abc_talk.tar.gz" = "abc_talk.tar"
  ∧ path_stem "uploads/.bashrc" = ".bashrc"
  ∧ path_stem "uploads/abc_talk.WAV" = "abc_talk".
Proof. vm_compute. repeat split; reflexivity. Qed.

Example job_name_sample : job_name 12 "0123456789abcdef" = "job_12_01234567".
Proof. reflexivity. Qed.

Example listdir_sample :
  listdir (<["uploads/a" := Entry 1 true]>
             (<["uploads/b/c" := Entry 1 true]> (<["outputs/z" := Entry 1 true]> ∅)))
          "uploads"
  = ["a"].
Proof. vm_compute. reflexivity. Qed.

(** The status codes along one run: a job is created, looked up, found
    not ready for download, processed, downloaded, swept, and gone. *)
Example status_codes_along_a_run :
  status_code <$>
    (run keep_name
         [OpTranscribe sample_request; OpStatus sample_id;
          OpDownload sample_id "srt"; OpWorkerStart 0;
          OpWorkerFinish 0 engines_ok 9; OpDownload sample_id "srt";
          OpDownload sample_id "pdf"; OpTranscribe text_request;
          OpCleanup 1000000000000; OpStatus sample_id; OpDelete sample_id]
         initial []).2
  = [202; 200; 400; 200; 400; 400; 200; 404; 404].
Proof. vm_compute. reflexivity. Qed.

(** ** Properties of the job lifecycle *)

(** C1. In every state the server can reach, a registered record has a
    non-empty outputs mapping exactly when its status is [completed], and
    an error detail exactly when its status is [failed]. *)
Theorem outputs_iff_completed_error_iff_failed (secure_filename : string → string)
    (st : server) (id : string) (j : TranscriptionJob) :
  reachable secure_filename st → lookup_job st id = Some j →
  (output_files j ≠ ∅ ↔ status j = completed)
  ∧ (is_Some (error_message j) ↔ status j = failed).
Proof.
  intros Hr Hj. apply reachable_inv in Hr. unfold lookup_job in Hj.
  destruct (transcription_jobs st !! id) as [l|] eqn:Hl; [|discriminate].
  destruct (inv_reg _ Hr _ _ Hl) as (j0 & Hj0 & _ & [Ho He _ _]).
  assert (j0 = j) as -> by congruence. done.
Qed.

Lemma outputs_iff_completed_witness :
  (output_files sample_job_done ≠ ∅ ↔ status sample_job_done = completed)
  ∧ (is_Some (error_message sample_job_done) ↔ status sample_job_done = failed).
Proof.
  apply (outputs_iff_completed_error_iff_failed keep_name sample_completed sample_id).
  - exists [OpTranscribe sample_request; OpWorkerStart 0; OpWorkerFinish 0 engines_ok 9].
    reflexivity.
  - vm_compute. reflexivity.
Defined.

(** C2 (as amended). [process_transcription_job] on an unregistered
    identifier returns at once. On a registered one it ends in one of two
    ways, decided by what the external calls do. When they return, the
    routine returns normally and leaves the record finished ([completed]
    or [failed]) with its end time set. When one of them raises an
    instance of [Exception], the routine returns normally as well and the
    record is [failed], with its end time set and an error detail that
    carries the fault's description and traceback. When one of them
    raises what is not an [Exception], nothing catches it: the fault
    leaves the routine, and the record is left [processing] with no other
    field assigned. *)
Theorem faults_become_failed (b : backends) (now : Z) (id : string) (st : server) :
  (transcription_jobs st !! id = None →
   process_transcription_job b now id st = (st, inr tt))
  ∧ ∀ l j, transcription_jobs st !! id = Some l → objects st !! l = Some j →
      ∃ st' res j',
        process_transcription_job b now id st = (st', res)
        ∧ objects st' !! l = Some j'
        ∧ match (external_calls b j (files st)).2 with
          | inr v =>
              res = inr tt
              ∧ (status j' = completed ∨ status j' = failed)
              ∧ end_time j' = Some now
          | inl e =>
              if is_exception e then
                res = inr tt
                ∧ status j' = failed
                ∧ end_time j' = Some now
                ∧ error_message j'
                  = Some (fault_prefix j ++ exn_str e ++ nl ++ exn_traceback e)
              else
                res = inl e ∧ j' = set_status processing j
          end.
Proof.
  unfold process_transcription_job, process_begin. split.
  - by intros ->.
  - intros l j Hl Hj. rewrite Hl.
    set (st1 := with_objects (alter (set_status processing) l) st).
    assert (objects st1 !! l = Some (set_status processing j)) as Hj1.
    { unfold st1, with_objects. simpl. by rewrite lookup_alter_eq, Hj. }
    destruct (process_run_cases b now id l st1 _ Hj1)
      as [(Hesc & res & _ & Hpost & ->)|(e & Hout & Hx & ->)].
    + eexists _, _, _. split; [reflexivity|]. simpl. rewrite lookup_insert_eq.
      split; [reflexivity|].
      change (external_calls b (set_status processing j) (files st1))
        with (external_calls b j (files st)) in *.
      change (fault_prefix (set_status processing j)) with (fault_prefix j) in Hpost.
      unfold adapter_post in Hpost.
      destruct (external_calls b j (files st)) as [d' [e|v]]; simpl in *.
      * apply negb_false_iff in Hesc. rewrite Hesc. subst res. simpl. done.
      * split; [done|]. destruct res as [[[] ?] ?]; simpl; auto.
    + eexists _, _, _. split; [reflexivity|]. simpl.
      split; [exact Hj1|].
      change (external_calls b (set_status processing j) (files st1))
        with (external_calls b j (files st)) in *.
      rewrite Hout, Hx. done.
Qed.

Lemma faults_become_failed_witness :
  ∃ st' j', process_transcription_job engines_crash 9 sample_id sample_pending
            = (st', inr tt)
    ∧ objects st' !! 0%nat = Some j'
    ∧ status j' = failed
    ∧ end_time j' = Some 9
    ∧ error_message j'
      = Some ("Autosub transcription failed: no network" ++ nl
              ++ "Traceback (most recent call last)").
Proof.
  destruct (faults_become_failed engines_crash 9 sample_id sample_pending) as [_ Hjob].
  destruct (Hjob 0%nat sample_job) as (st' & res & j' & Hrun & Hj' & Hcase);
    [vm_compute; reflexivity | vm_compute; reflexivity |].
  replace (external_calls engines_crash sample_job (files sample_pending)).2
    with (inl (Exn "no network" "Traceback (most recent call last)") : exn + pyval)
    in Hcase by (vm_compute; reflexivity).
  simpl in Hcase. destruct Hcase as (-> & Hs & Ht & He).
  exists st', j'. split; [exact Hrun|]. split; [exact Hj'|].
  split; [exact Hs|]. split; [exact Ht|]. exact He.
Defined.

(** C2 (as stated) fails. [SystemExit] is not an [Exception]: when the
    engine of the sample job ends in [sys.exit(1)], neither adapter nor
    worker catches it. The fault leaves [process_transcription_job], the
    record keeps the status [processing] with no end time and no error
    detail, and once the worker thread has ended the record stays that
    way whatever happens next, for as long as it is registered. *)
Lemma exit_leaves_job_processing :
  (∃ st', process_transcription_job engines_exit 9 sample_id sample_pending
          = (st', inl (BaseExn "1" "Traceback (most recent call last)"))
     ∧ lookup_job st' sample_id = Some (set_status processing sample_job))
  ∧ workers sample_exited = [Finished sample_id]
  ∧ lookup_job sample_exited sample_id = Some (set_status processing sample_job)
  ∧ (get_job_status sample_id sample_exited).2
    = JobInfo (to_dict (set_status processing sample_job))
  ∧ (∀ (ops : list op) (j' : TranscriptionJob),
       lookup_job (run keep_name ops sample_exited []).1 sample_id = Some j' →
       status j' = processing ∧ end_time j' = None ∧ error_message j' = None)
  ∧ ¬ (∀ (b : backends) (now : Z) (id : string) (st : server) (l : nat)
         (j : TranscriptionJob) (e : exn),
         transcription_jobs st !! id = Some l → objects st !! l = Some j →
         (external_calls b j (files st)).2 = inl e →
         ∃ st' j', process_transcription_job b now id st = (st', inr tt)
                   ∧ objects st' !! l = Some j'
                   ∧ status j' = failed
                   ∧ end_time j' = Some now
                   ∧ error_message j'
                     = Some (fault_prefix j ++ exn_str e ++ nl ++ exn_traceback e)).
Proof.
  split; [eexists; split; vm_compute; reflexivity|].
  split; [vm_compute; reflexivity|].
  split; [vm_compute; reflexivity|].
  split; [vm_compute; reflexivity|].
  split.
  { intros ops j' Hj'.
    assert (reachable keep_name sample_exited) as Hr.
    { exists [OpTranscribe sample_request; OpWorkerStart 0;
              OpWorkerFinish 0 engines_exit 9]. reflexivity. }
    assert (j' = set_status processing sample_job) as ->; [|done].
    apply (ended_registered keep_name ops sample_exited [] 0 sample_id _ _
             (reachable_inv _ _ Hr) (reachable_linked _ _ Hr));
      [vm_compute; reflexivity | vm_compute; reflexivity | exact Hj']. }
  intros H.
  destruct (H engines_exit 9 sample_id sample_pending 0%nat sample_job
              (BaseExn "1" "Traceback (most recent call last)"))
    as (st' & j' & Hrun & _);
    [vm_compute; reflexivity | vm_compute; reflexivity | vm_compute; reflexivity |].
  assert ((process_transcription_job engines_exit 9 sample_id sample_pending).2
          = inl (BaseExn "1" "Traceback (most recent call last)")) as Hesc
    by (vm_compute; reflexivity).
  rewrite Hrun in Hesc. discriminate.
Qed.

(** C3. The record held by a worker ends [completed] exactly when the
    engine call returned a value that is neither the cancellation value
    [-1] nor false and both declared output files exist on disk when the
    adapter checks; in every other case that the adapters handle (an
    [Exception], the cancellation value, a false value, a missing file)
    it ends [failed]. Only a raise that is not an [Exception] ends the
    [try] statement otherwise: it passes through, and the record is left
    as it was. *)
Theorem completed_iff_success_and_files (b : backends) (now : Z) (id : string)
    (l : nat) (st : server) (j : TranscriptionJob) :
  objects st !! l = Some j →
  ∃ st' res j',
    process_run b now id l st = (st', res)
    ∧ files st' = (external_calls b j (files st)).1
    ∧ objects st' !! l = Some j'
    ∧ (escapes (external_calls b j (files st)).2 = false →
       res = inr tt
       ∧ (status j' = completed
          ↔ ∃ v, (external_calls b j (files st)).2 = inr v
                 ∧ reports_success v = true
                 ∧ path_exists (files st') (srt_path j) = true
                 ∧ path_exists (files st') (txt_path j) = true)
       ∧ (status j' ≠ completed → status j' = failed))
    ∧ (∀ e, (external_calls b j (files st)).2 = inl e → is_exception e = false →
            res = inl e ∧ j' = j).
Proof.
  intros Hj.
  destruct (process_run_cases b now id l st j Hj)
    as [(Hesc & res & _ & Hpost & ->)|(e & Hout & Hx & ->)].
  - eexists _, _, _. split; [reflexivity|]. simpl. split; [reflexivity|].
    rewrite lookup_insert_eq. split; [reflexivity|]. split.
    2: { intros e He Hx. rewrite He in Hesc. simpl in Hesc. by rewrite Hx in Hesc. }
    intros _. split; [reflexivity|].
    unfold adapter_post in Hpost.
    destruct (external_calls b j (files st)) as [d' [e|v]]; simpl in *.
    + subst res. simpl. split; [|done]. split; [discriminate|].
      intros (v & Hv & _). discriminate.
    + destruct (reports_success v) eqn:Hs; simpl in Hpost.
      * destruct (path_exists d' (srt_path j)) eqn:Hsrt; simpl in Hpost.
        -- destruct (path_exists d' (txt_path j)) eqn:Htxt; simpl in Hpost.
           ++ subst res. simpl. split; [|done]. split; [eauto 10 | done].
           ++ destruct res as [[[] msg] outs]; destruct Hpost as (? & ? & ?); [done|].
              simpl. split; [|done]. split; [discriminate|].
              intros (v' & _ & _ & _ & ?). discriminate.
        -- destruct res as [[[] msg] outs]; destruct Hpost as (? & ? & ?); [done|].
           simpl. split; [|done]. split; [discriminate|].
           intros (v' & _ & _ & ? & _). discriminate.
      * destruct res as [[[] msg] outs]; destruct Hpost as (? & ? & ?); [done|].
        simpl. split; [|done]. split; [discriminate|].
        intros (v' & Hv & ? & _). injection Hv as <-. congruence.
  - eexists _, _, _. split; [reflexivity|]. simpl. split; [reflexivity|].
    split; [exact Hj|]. split.
    + rewrite Hout. simpl. rewrite Hx. discriminate.
    + intros e' He' _. rewrite Hout in He'. injection He' as <-. done.
Qed.

Lemma completed_iff_success_witness :
  ∃ st' j',
    process_run engines_ok 9 sample_id 0 sample_processing = (st', inr tt)
    ∧ objects st' !! 0%nat = Some j' ∧ status j' = completed.
Proof.
  destruct (completed_iff_success_and_files engines_ok 9 sample_id 0 sample_processing
              (set_status processing sample_job))
    as (st' & res & j' & Hrun & Hfiles & Hj' & Hret & _); [vm_compute; reflexivity|].
  destruct Hret as (-> & Hiff & _); [vm_compute; reflexivity|].
  exists st', j'. split; [exact Hrun|]. split; [exact Hj'|].
  apply Hiff. exists (PyStr "outputs/abc_talk.srt").
  split; [vm_compute; reflexivity|]. split; [reflexivity|].
  rewrite Hfiles. split; vm_compute; reflexivity.
Defined.

(** The forgetful engines report success without the text file: the job fails. *)
Example forgetful_engine_fails :
  let st := (run keep_name [OpTranscribe bare_request; OpWorkerStart 0;
                            OpWorkerFinish 0 engines_forgetful 9] initial []).1 in
  (status <$> lookup_job st sample_id) = Some failed
  ∧ (error_message <$> lookup_job st sample_id) = Some (Some "TXT file was not created").
Proof. vm_compute. split; reflexivity. Qed.

(** C4. A [POST /transcribe] request whose file has an extension outside
    the fourteen accepted ones, or whose engine (read as the handler reads
    it: lower-cased, [whisper] when absent) is neither [autosub] nor
    [whisper], is answered with status 400 and leaves the server state as
    it was: no record, no identifier, no worker. *)
Theorem bad_extension_or_engine_rejected (secure_filename : string → string)
    (r : transcribe_request) (st : server) :
  (∃ fname, req_file r = Some fname ∧ file_ext fname ∉ extensions)
  ∨ ((form_params r).1.1 ≠ "autosub" ∧ (form_params r).1.1 ≠ "whisper") →
  ∃ msg, transcribe_file secure_filename r st = (st, Error 400 msg)
         ∧ status_code (Error 400 msg) = 400.
Proof.
  intros H.
  destruct (transcribe_file_reject secure_filename r st) as [msg Hm]; [|by eauto].
  unfold valid_request. destruct (req_file r) as [fname|]; [|done].
  destruct H as [(f & Hf & Hext)|[Ha Hw]].
  - injection Hf as <-. rewrite <- allowed_file_extensions in Hext.
    destruct (allowed_file fname); [done|]. by rewrite andb_false_r.
  - apply String.eqb_neq in Ha, Hw. rewrite Ha, Hw. by rewrite andb_false_r.
Qed.

Lemma bad_extension_rejected_witness :
  ∃ msg, transcribe_file keep_name text_request sample_completed
         = (sample_completed, Error 400 msg)
         ∧ status_code (Error 400 msg) = 400.
Proof.
  apply bad_extension_or_engine_rejected. left. exists "notes.txt".
  split; [reflexivity|].
  apply (bool_decide_eq_false_1 (file_ext "notes.txt" ∈ extensions)).
  vm_compute. reflexivity.
Defined.






(** An old entry that cannot be unlinked is skipped and not counted. *)
Example sweep_skips_failing_removal :
  cleanup_old_files 1000000000000 sample_stuck
  = (sample_stuck, Message "Cleanup completed. Removed 0 files and 0 jobs.").
Proof. vm_compute. reflexivity. Qed.

(** C7 (as amended). A progress report on a registered job stores the
    reported value as it is and changes nothing else of the record, so
    after a report the stored progress lies within 0..100 and has not
    decreased exactly when the reported value lies within 0..100 and is
    not below the value stored before. *)
Theorem report_stores_reported_value (id task : string) (p : Z) (st : server)
    (j : TranscriptionJob) :
  lookup_job st id = Some j →
  ∃ st', progress_callback id task p st = (st', inr tt)
    ∧ lookup_job st' id = Some (set_progress p j)
    ∧ progress (set_progress p j) = p
    ∧ status (set_progress p j) = status j
    ∧ ((0 ≤ progress (set_progress p j) ≤ 100 ∧ progress j ≤ progress (set_progress p j))
       ↔ (0 ≤ p ≤ 100 ∧ progress j ≤ p)).
Proof.
  unfold lookup_job, progress_callback, bind, get, write, modify, ret.
  destruct (transcription_jobs st !! id) as [l|] eqn:Hl; [|discriminate].
  intros Hj. eexists. split; [reflexivity|]. simpl. rewrite Hl.
  rewrite lookup_alter_eq, Hj. done.
Qed.

Lemma report_stores_reported_value_witness :
  ∃ st', progress_callback sample_id "Converting" 30 sample_processing = (st', inr tt)
    ∧ (progress <$> lookup_job st' sample_id) = Some 30.
Proof.
  destruct (report_stores_reported_value sample_id "Converting" 30 sample_processing
              (set_status processing sample_job))
    as (st' & Hrun & Hj' & _); [vm_compute; reflexivity|].
  exists st'. split; [exact Hrun|]. by rewrite Hj'.
Defined.

(** C7 (as stated) fails: while the sample job is [processing], a report
    of 50 followed by a report of 30 lowers the stored progress, and a
    report of 150 stores a value above 100. *)
Lemma progress_can_decrease_and_overflow :
  let st0 := sample_processing in
  let st1 := (step keep_name (OpReport 0 "Converting" 50) st0).1 in
  let st2 := (step keep_name (OpReport 0 "Converting" 30) st1).1 in
  let st3 := (step keep_name (OpReport 0 "Converting" 150) st2).1 in
  (status <$> lookup_job st1 sample_id) = Some processing
  ∧ (progress <$> lookup_job st1 sample_id) = Some 50
  ∧ (status <$> lookup_job st2 sample_id) = Some processing
  ∧ (progress <$> lookup_job st2 sample_id) = Some 30
  ∧ (status <$> lookup_job st3 sample_id) = Some processing
  ∧ (progress <$> lookup_job st3 sample_id) = Some 150
  ∧ ¬ (∀ (st : server) (id task : string) (p : Z) (j j' : TranscriptionJob),
         lookup_job st id = Some j → status j = processing →
         lookup_job (progress_callback id task p st).1 id = Some j' →
         0 ≤ progress j' ≤ 100 ∧ progress j ≤ progress j').
Proof.
  repeat split; try (vm_compute; reflexivity).
  intros H.
  destruct (H (step keep_name (OpReport 0 "Converting" 50) sample_processing).1
              sample_id "Converting" 30
              (set_progress 50 (set_status processing sample_job))
              (set_progress 30 (set_status processing sample_job)))
    as [_ Hle]; try (vm_compute; reflexivity).
  vm_compute in Hle. by apply Hle.
Qed.

(** C8. A progress report for an identifier that is not registered
    returns normally and leaves the whole server state as it is; so does
    the report step of a worker whose job has been deleted. *)
Theorem report_on_unknown_is_noop (id task : string) (p : Z) (st : server) :
  transcription_jobs st !! id = None →
  progress_callback id task p st = (st, inr tt)
  ∧ ∀ tid job, workers st !! tid = Some (Running id job) →
               worker_report tid task p st = st.
Proof.
  intros Hid. assert (progress_callback id task p st = (st, inr tt)) as Hcb.
  { unfold progress_callback, bind, get, ret. by rewrite Hid. }
  split; [exact Hcb|].
  intros tid job Hw. unfold worker_report. rewrite Hw.
  destruct (objects st !! job) as [j|]; [|done].
  destruct (String.eqb (engine j) "autosub"); [|done]. by rewrite Hcb.
Qed.

Lemma report_on_unknown_witness :
  workers sample_deleted !! 0%nat = Some (Running sample_id 0)
  ∧ progress_callback sample_id "Converting" 40 sample_deleted = (sample_deleted, inr tt)
  ∧ worker_report 0 "Converting" 40 sample_deleted = sample_deleted.
Proof.
  assert (workers sample_deleted !! 0%nat = Some (Running sample_id 0)) as Hw
    by (vm_compute; reflexivity).
  destruct (report_on_unknown_is_noop sample_id "Converting" 40 sample_deleted)
    as [Hcb Hstep]; [vm_compute; reflexivity|].
  split; [exact Hw|]. split; [exact Hcb|]. exact (Hstep _ _ Hw).
Defined.

(** C9. For a registered job whose status is [completed], and a kind [k]
    that is [srt] or [txt]: in every reachable state the outputs mapping
    has exactly the keys [srt_file] and [txt_file]; and the download
    handler looks up the key [k ++ "_file"], answers 404 when the key is
    absent or the stored path is not on disk, and otherwise sends the
    file at the stored path. *)
Theorem download_serves_output_file (secure_filename : string → string)
    (st : server) (id k : string) (j : TranscriptionJob) :
  lookup_job st id = Some j → status j = completed → k = "srt" ∨ k = "txt" →
  (reachable secure_filename st →
   dom (output_files j) = ({["srt_file"; "txt_file"]} : gset string)
   ∧ is_Some (output_files j !! (k ++ "_file")))
  ∧ download_file id k st
    = (st, match output_files j !! (k ++ "_file") with
           | None => Error 404 (Str.upper k ++ " file not found")
           | Some p => if path_exists (files st) p then SendFile p
                       else Error 404 "File not found on disk"
           end).
Proof.
  unfold lookup_job. intros Hj Hs Hk.
  destruct (transcription_jobs st !! id) as [l|] eqn:Hl; [|discriminate].
  split.
  - intros Hr. apply reachable_inv in Hr.
    destruct (inv_reg _ Hr _ _ Hl) as (j0 & Hj0 & _ & [_ _ _ Hkeys]).
    assert (j0 = j) as -> by congruence.
    specialize (Hkeys Hs). split; [done|].
    apply elem_of_dom. rewrite Hkeys. destruct Hk as [-> | ->]; set_solver.
  - unfold download_file. rewrite Hl, Hj, Hs. simpl.
    destruct Hk as [-> | ->]; simpl;
      match goal with |- context [output_files j !! ?key] =>
        destruct (output_files j !! key) as [p|]; [|reflexivity] end;
      by destruct (path_exists (files st) p).
Qed.

Lemma download_serves_witness :
  download_file sample_id "srt" sample_completed
  = (sample_completed, SendFile "outputs/abc_talk.srt").
Proof.
  destruct (download_serves_output_file keep_name sample_completed sample_id "srt"
              sample_job_done) as [_ ->];
    [vm_compute; reflexivity | reflexivity | by left |].
  vm_compute. reflexivity.
Defined.



(** ** Further properties of the handlers and the worker *)

(** X1. Between two moments of a run at which a record is registered
    under the same identifier, the fields set at creation (identifier,
    file name, engine, language, start time) are the same and the status
    has not moved back. *)
Theorem status_only_moves_forward (secure_filename : string → string)
    (st : server) (ops : list op) (log : list response) (id : string)
    (j j' : TranscriptionJob) :
  reachable secure_filename st →
  lookup_job st id = Some j →
  lookup_job (run secure_filename ops st log).1 id = Some j' →
  job_id j' = job_id j ∧ filename j' = filename j ∧ engine j' = engine j
  ∧ language j' = language j ∧ start_time j' = start_time j
  ∧ status_le (status j) (status j').
Proof.
  intros Hr Hj Hj'.
  destruct (registered_evolves secure_filename ops st log id j j'
              (reachable_inv _ _ Hr) (reachable_linked _ _ Hr) Hj Hj'); auto 10.
Qed.

Lemma status_only_moves_forward_witness :
  job_id sample_job_done = job_id sample_job
  ∧ filename sample_job_done = filename sample_job
  ∧ engine sample_job_done = engine sample_job
  ∧ language sample_job_done = language sample_job
  ∧ start_time sample_job_done = start_time sample_job
  ∧ status_le (status sample_job) (status sample_job_done).
Proof.
  apply (status_only_moves_forward keep_name sample_pending
           [OpWorkerStart 0; OpReport 0 "Converting" 40; OpWorkerFinish 0 engines_ok 9]
           [] sample_id).
  - exists [OpTranscribe sample_request]. reflexivity.
  - vm_compute. reflexivity.
  - vm_compute. reflexivity.
Defined.

(** X2. Once a registered record is [completed] or [failed], no later
    step changes any of its fields: as long as the identifier stays
    registered it resolves to the very same record. *)
Theorem finished_record_is_frozen (secure_filename : string → string)
    (st : server) (ops : list op) (log : list response) (id : string)
    (j j' : TranscriptionJob) :
  reachable secure_filename st →
  lookup_job st id = Some j →
  status j = completed ∨ status j = failed →
  lookup_job (run secure_filename ops st log).1 id = Some j' →
  j' = j.
Proof.
  intros Hr Hj Hfin Hj'.
  apply (ev_final _ _ (registered_evolves secure_filename ops st log id j j'
                         (reachable_inv _ _ Hr) (reachable_linked _ _ Hr) Hj Hj')).
  exact Hfin.
Qed.

Lemma finished_record_is_frozen_witness :
  lookup_job (run keep_name [OpReport 0 "Converting" 5; OpWorkerFinish 0 engines_crash 20;
                             OpTranscribe bare_request; OpCleanup 10]
                  sample_completed []).1 sample_id
  = Some sample_job_done.
Proof.
  assert (∃ j', lookup_job (run keep_name
                   [OpReport 0 "Converting" 5; OpWorkerFinish 0 engines_crash 20;
                    OpTranscribe bare_request; OpCleanup 10]
                   sample_completed []).1 sample_id = Some j') as [j' Hj']
    by (eexists; vm_compute; reflexivity).
  rewrite Hj'. f_equal.
  apply (finished_record_is_frozen keep_name sample_completed
           [OpReport 0 "Converting" 5; OpWorkerFinish 0 engines_crash 20;
            OpTranscribe bare_request; OpCleanup 10] [] sample_id).
  - exists [OpTranscribe sample_request; OpWorkerStart 0; OpWorkerFinish 0 engines_ok 9].
    reflexivity.
  - vm_compute. reflexivity.
  - left. reflexivity.
  - exact Hj'.
Defined.

(** X3. A single step changes a registered record in one of three ways
    or not at all: a worker picks a [pending] record up (only the status
    changes, to [processing]); the autosub engine reports progress on a
    [processing] record (only the progress changes); or the worker of a
    [processing] record folds the outcome in ([completed] with the two
    declared output paths and progress 100, or [failed] with a non-empty
    error detail). *)
Theorem step_changes_record_by_job_step (secure_filename : string → string)
    (st : server) (o : op) (id : string) (j j' : TranscriptionJob) :
  reachable secure_filename st →
  lookup_job st id = Some j →
  lookup_job (step secure_filename o st).1 id = Some j' →
  j' = j ∨ job_step j j'.
Proof.
  intros Hr Hj Hj'. pose proof (reachable_inv _ _ Hr) as Hinv.
  pose proof (reachable_linked _ _ Hr) as Hlk. unfold lookup_job in *.
  destruct (transcription_jobs st !! id) as [l|] eqn:Hl; [|discriminate].
  destruct (transcription_jobs (step secure_filename o st).1 !! id) as [l'|] eqn:Hl';
    [|discriminate].
  destruct (registry_step secure_filename o st id l' Hinv Hl') as [Hsame|Hnew].
  - assert (l' = l) as -> by congruence.
    destruct (heap_step secure_filename o st l j Hinv Hlk Hj) as (j1 & Hj1 & Hstep).
    congruence.
  - exfalso. apply Hnew. eapply (lk_reg _ Hlk); eauto.
Qed.

Lemma step_changes_record_witness :
  set_status processing sample_job = sample_job
  ∨ job_step sample_job (set_status processing sample_job).
Proof.
  apply (step_changes_record_by_job_step keep_name sample_pending (OpWorkerStart 0)
           sample_id).
  - exists [OpTranscribe sample_request]. reflexivity.
  - vm_compute. reflexivity.
  - vm_compute. reflexivity.
Defined.

(** X4. In every reachable state a registered record carries the
    identifier it is registered under and one of the two engine names;
    while [pending] its progress is 0 and nothing else is filled in; a
    whisper job that is [processing] still shows progress 0; when
    [completed] its progress is 100, its outputs are the [.srt] and
    [.txt] paths in the output folder named after the stem of its file
    name, it has an end time and no error detail; when [failed] it has a
    non-empty error detail, an end time and no outputs. *)
Theorem registered_record_contents (secure_filename : string → string)
    (st : server) (id : string) (j : TranscriptionJob) :
  reachable secure_filename st → lookup_job st id = Some j →
  job_id j = id
  ∧ (engine j = "autosub" ∨ engine j = "whisper")
  ∧ (status j = pending →
     progress j = 0 ∧ output_files j = ∅ ∧ error_message j = None ∧ end_time j = None)
  ∧ (engine j = "whisper" → status j = processing → progress j = 0)
  ∧ (status j = completed →
     progress j = 100
     ∧ output_files j
       = outputs_of (path_join OUTPUT_FOLDER (path_stem (filename j) ++ ".srt"))
                    (path_join OUTPUT_FOLDER (path_stem (filename j) ++ ".txt"))
     ∧ error_message j = None ∧ is_Some (end_time j))
  ∧ (status j = failed →
     (∃ m, error_message j = Some m ∧ m ≠ "")
     ∧ output_files j = ∅ ∧ is_Some (end_time j)).
Proof.
  intros Hr Hj. pose proof (reachable_inv _ _ Hr) as Hinv.
  pose proof (reachable_linked _ _ Hr) as Hlk. unfold lookup_job in Hj.
  destruct (transcription_jobs st !! id) as [l|] eqn:Hl; [|discriminate].
  destruct (inv_reg _ Hinv _ _ Hl) as (j0 & Hj0 & Hid & Hok).
  assert (j0 = j) as -> by congruence.
  destruct (lk_shape _ Hlk _ _ Hj) as [He Hp Hw Hc Hf].
  destruct Hok as [Ho Herr Hend Hkeys].
  split; [done|]. split; [done|]. split; [|split; [exact Hw|split]].
  - intros Hs. split; [auto|]. apply job_ok_blank; [by split | by left].
  - intros Hs. destruct (Hc Hs) as [H100 Houts]. split; [done|]. split; [exact Houts|].
    split; [|apply Hend; by left].
    destruct (error_message j) eqn:E; [|done].
    assert (status j = failed) by (apply Herr; eauto). congruence.
  - intros Hs. split; [auto|]. split; [|apply Hend; by right].
    destruct (decide (output_files j = ∅)) as [|Hn]; [done|].
    apply Ho in Hn. congruence.
Qed.

Lemma registered_record_contents_witness :
  progress sample_job_done = 100
  ∧ output_files sample_job_done
    = outputs_of "outputs/abc_talk.srt" "outputs/abc_talk.txt".
Proof.
  destruct (registered_record_contents keep_name sample_completed sample_id
              sample_job_done) as (_ & _ & _ & _ & Hc & _).
  - exists [OpTranscribe sample_request; OpWorkerStart 0; OpWorkerFinish 0 engines_ok 9].
    reflexivity.
  - vm_compute. reflexivity.
  - destruct (Hc eq_refl) as (H100 & Houts & _). split; [exact H100 | exact Houts].
Defined.

(** X5. An identifier that was handed out and no longer resolves (its
    job was deleted or swept) never resolves again, whatever happens
    next: identifiers are not reused. *)
Theorem removed_identifier_never_resolves (secure_filename : string → string)
    (ops1 ops2 : list op) (id : string) :
  id ∈ issued_ids (run secure_filename ops1 initial []).2 →
  (get_job_status id (run secure_filename ops1 initial []).1).2
  = Error 404 "Job not found" →
  (get_job_status id (run secure_filename ops2 (run secure_filename ops1 initial []).1
                          (run secure_filename ops1 initial []).2).1).2
  = Error 404 "Job not found".
Proof.
  intros Hin H404.
  pose proof (run_inv secure_filename ops1 initial [] inv_initial) as Hinv.
  rewrite (run_issued secure_filename ops1 initial [] inv_initial eq_refl) in Hin.
  set (st1 := (run secure_filename ops1 initial []).1) in *.
  set (log1 := (run secure_filename ops1 initial []).2) in *.
  assert (transcription_jobs st1 !! id = None) as Hnone.
  { unfold get_job_status in H404.
    destruct (transcription_jobs st1 !! id) as [l|]; [|done].
    destruct (objects st1 !! l); discriminate. }
  unfold get_job_status.
  by rewrite (unregistered_stays secure_filename ops2 st1 log1 id Hinv Hin Hnone).
Qed.

Lemma removed_identifier_witness :
  (get_job_status sample_id
     (run keep_name [OpWorkerFinish 0 engines_ok 9; OpTranscribe sample_request]
          (run keep_name [OpTranscribe sample_request; OpWorkerStart 0; OpDelete sample_id]
               initial []).1
          (run keep_name [OpTranscribe sample_request; OpWorkerStart 0; OpDelete sample_id]
               initial []).2).1).2
  = Error 404 "Job not found".
Proof.
  apply (removed_identifier_never_resolves keep_name
           [OpTranscribe sample_request; OpWorkerStart 0; OpDelete sample_id]
           [OpWorkerFinish 0 engines_ok 9; OpTranscribe sample_request] sample_id).
  - apply (bool_decide_eq_true_1 (sample_id ∈ issued_ids
             (run keep_name [OpTranscribe sample_request; OpWorkerStart 0;
                             OpDelete sample_id] initial []).2)).
    vm_compute. reflexivity.
  - vm_compute. reflexivity.
Defined.

(** X6. Deleting a registered job answers with the confirmation, removes
    the registration and nothing else from the registry, and removes from
    the file system exactly the job's input file and output files whose
    removal succeeds; afterwards the identifier no longer resolves and a
    second delete answers 404 without changing anything. *)
Theorem delete_job_removes_record_and_files (id : string) (st : server)
    (j : TranscriptionJob) :
  lookup_job st id = Some j →
  ∃ st', delete_job id st = (st', Message "Job deleted successfully")
    ∧ lookup_job st' id = None
    ∧ (∀ id', id' ≠ id → lookup_job st' id' = lookup_job st id')
    ∧ (∀ q, files st' !! q = None ∨ files st' !! q = files st !! q)
    ∧ (∀ q e, files st !! q = Some e →
              (files st' !! q = None
               ↔ removable e = true
                 ∧ (q = filename j ∨ ∃ k, output_files j !! k = Some q)))
    ∧ delete_job id st' = (st', Error 404 "Job not found")
    ∧ get_job_status id st' = (st', Error 404 "Job not found").
Proof.
  unfold lookup_job. intros Hj.
  destruct (transcription_jobs st !! id) as [l|] eqn:Hl; [|discriminate].
  destruct (delete_job_spec id st l j Hl Hj) as (d' & -> & Hlk).
  eexists. split; [reflexivity|]. simpl.
  split; [by rewrite lookup_delete_eq|].
  split; [intros id' Hne; by rewrite lookup_delete_ne|].
  split; [|split; [|split]].
  - intros q. rewrite Hlk. destruct (files st !! q) as [e|]; [|by left].
    destruct (_ && _); [by left | by right].
  - intros q e Hq. rewrite Hlk, Hq.
    destruct (removable e); simpl; rewrite ?andb_false_r, ?andb_true_r.
    + destruct (bool_decide _) eqn:Hb.
      * apply bool_decide_eq_true in Hb. split; [intros _|done]. split; [done|].
        destruct Hb as [?|Hin]; [by left|]. right. by apply elem_of_map_values.
      * apply bool_decide_eq_false in Hb. split; [discriminate|].
        intros [_ [?|Hin]]; exfalso; apply Hb; [by left|].
        right. by apply elem_of_map_values.
    + split; [discriminate | intros [? _]; discriminate].
  - unfold delete_job. simpl. by rewrite lookup_delete_eq.
  - unfold get_job_status. simpl. by rewrite lookup_delete_eq.
Qed.

Lemma delete_job_removes_witness :
  ∃ st', delete_job sample_id sample_completed = (st', Message "Job deleted successfully")
    ∧ lookup_job st' sample_id = None
    ∧ files st' = ∅.
Proof.
  destruct (delete_job_removes_record_and_files sample_id sample_completed sample_job_done)
    as (st' & Hdel & Hgone & _); [vm_compute; reflexivity|].
  exists st'. split; [exact Hdel|]. split; [exact Hgone|].
  assert (st' = (delete_job sample_id sample_completed).1) as -> by (by rewrite Hdel).
  vm_compute. reflexivity.
Defined.





(** X9. In a reachable state the job listing has one entry per
    registered job: its total is the size of the registry, and its
    entries are exactly the dictionaries of the registered records. *)
Theorem list_jobs_lists_registry (secure_filename : string → string) (st : server) :
  reachable secure_filename st →
  ∃ jobs, list_jobs st = (st, JobList jobs (size (transcription_jobs st)))
    ∧ length jobs = size (transcription_jobs st)
    ∧ ∀ d, d ∈ jobs ↔ ∃ id j, lookup_job st id = Some j ∧ d = to_dict j.
Proof.
  intros Hr. apply reachable_inv in Hr. unfold list_jobs.
  set (jobs := omap (fun kl => to_dict <$> objects st !! kl.2)
                    (map_to_list (transcription_jobs st))).
  assert (length jobs = size (transcription_jobs st)) as Hlen.
  { unfold jobs. rewrite length_omap_total; [apply length_map_to_list|].
    intros [id l] Hin. apply elem_of_map_to_list in Hin.
    destruct (inv_reg _ Hr _ _ Hin) as (j & Hj & _). simpl. rewrite Hj. by eexists. }
  exists jobs. rewrite Hlen. split; [done|]. split; [done|].
  intros d. unfold jobs. rewrite list_elem_of_omap. unfold lookup_job. split.
  - intros ([id l] & Hin & Hd). apply elem_of_map_to_list in Hin. simpl in Hd.
    destruct (objects st !! l) as [j|] eqn:Hj; [|discriminate].
    injection Hd as <-. exists id, j. by rewrite Hin.
  - intros (id & j & Hj & ->).
    destruct (transcription_jobs st !! id) as [l|] eqn:Hl; [|discriminate].
    exists (id, l). split; [by apply elem_of_map_to_list|]. simpl. by rewrite Hj.
Qed.

Lemma list_jobs_witness :
  ∃ jobs, list_jobs sample_completed = (sample_completed, JobList jobs 1)
    ∧ length jobs = 1%nat.
Proof.
  destruct (list_jobs_lists_registry keep_name sample_completed)
    as (jobs & Hlist & Hlen & _).
  - exists [OpTranscribe sample_request; OpWorkerStart 0; OpWorkerFinish 0 engines_ok 9].
    reflexivity.
  - exists jobs. split; [exact Hlist | exact Hlen].
Defined.

(** X10. The sweep is idempotent: a second sweep with the same age bound
    at the same time finds nothing left to remove, reports zero files and
    zero jobs and leaves the state as the first sweep left it. *)
Theorem sweep_twice_removes_nothing (h now : Z) (st : server) :
  cleanup_sweep h now (cleanup_sweep h now st).1
  = ((cleanup_sweep h now st).1,
     Message "Cleanup completed. Removed 0 files and 0 jobs.").
Proof.
  destruct (cleanup_sweep_spec h now st) as (d1 & n1 & -> & _ & Hlk1). simpl.
  set (st1 := Server (objects st)
                (foldl (fun m id => delete id m) (transcription_jobs st)
                       (jobs_to_remove now h st))
                (job_counter st) d1 (workers st)).
  destruct (cleanup_sweep_spec h now st1) as (d2 & n2 & -> & Hsz2 & Hlk2).
  assert (d2 = d1) as ->.
  { apply map_eq. intros p. rewrite Hlk2. simpl.
    destruct (d1 !! p) as [e|] eqn:Hp; [|done].
    rewrite Hlk1 in Hp. destruct (files st !! p) as [e0|]; [|done].
    destruct (swept now h p e0) eqn:Hs; [done|]. injection Hp as <-. by rewrite Hs. }
  assert (n2 = 0%nat) as -> by (simpl in Hsz2; lia).
  assert (jobs_to_remove now h st1 = []) as ->.
  { destruct (jobs_to_remove now h st1) as [|k t] eqn:E; [done|]. exfalso.
    assert (k ∈ jobs_to_remove now h st1) as Hk by (rewrite E; apply list_elem_of_here).
    apply jobs_to_remove_elem in Hk as (l & j & Hl & Hj & He). simpl in Hl, Hj.
    rewrite lookup_foldl_delete in Hl.
    destruct (bool_decide (k ∈ jobs_to_remove now h st)) eqn:Hb; [done|].
    apply bool_decide_eq_false in Hb. apply Hb.
    apply jobs_to_remove_elem. eauto. }
  reflexivity.
Qed.

(** X11. The error detail of a worker's record tells the failures apart.
    For a record with an unknown engine no engine is invoked, the file
    system is untouched and the detail names the engine. For a known
    engine whose [generate_subtitles] returned [v]: if [v] is [-1] the
    detail is the cancellation message, even though [-1] counts as true;
    if [v] is another false value it is the generation failure message;
    if [v] reports success but the subtitle file is missing it names the
    SRT file; if only the text file is missing it names the TXT file. *)
Theorem failure_detail_by_cause (b : backends) (now : Z) (id : string) (l : nat)
    (st : server) (j : TranscriptionJob) :
  objects st !! l = Some j →
  ∃ st' res j',
    process_run b now id l st = (st', res)
    ∧ objects st' !! l = Some j'
    ∧ (engine j ≠ "autosub" → engine j ≠ "whisper" →
       res = inr tt ∧ files st' = files st ∧ status j' = failed
       ∧ error_message j' = Some ("Unknown transcription engine: " ++ engine j))
    ∧ (engine j = "autosub" ∨ engine j = "whisper" →
       ∀ v, (external_calls b j (files st)).2 = inr v →
         res = inr tt
         ∧ (py_is_minus_one v = true →
            error_message j' = Some "Transcription was cancelled")
         ∧ (py_is_minus_one v = false → py_truth v = false →
            error_message j' = Some "Failed to generate subtitles")
         ∧ (reports_success v = true →
            path_exists (files st') (srt_path j) = false →
            error_message j' = Some "SRT file was not created")
         ∧ (reports_success v = true →
            path_exists (files st') (srt_path j) = true →
            path_exists (files st') (txt_path j) = false →
            error_message j' = Some "TXT file was not created")).
Proof.
  intros Hj.
  destruct (process_run_cases b now id l st j Hj)
    as [(_ & res & Hcall & _ & ->)|(e & Hout & Hx & ->)].
  - eexists _, _, _. split; [reflexivity|]. simpl. rewrite lookup_insert_eq.
    split; [reflexivity|]. split.
    + intros Ha Hw. apply String.eqb_neq in Ha, Hw.
      unfold engine_call, external_calls in *. rewrite Ha, Hw in *.
      unfold ret in Hcall. simpl in Hcall. injection Hcall as <-. simpl. done.
    + intros Heng v Hv.
      destruct (engine_call_detail b j id (files st) v Heng Hv)
        as (r & Hcall' & H1 & H2 & H3 & H4).
      assert (r = res) as -> by congruence.
      split; [reflexivity|]. repeat split.
      * intros Hm. by rewrite (H1 Hm).
      * intros Hm Ht. by rewrite (H2 Hm Ht).
      * intros Hs Hsrt. by rewrite (H3 Hs Hsrt).
      * intros Hs Hsrt Htxt. by rewrite (H4 Hs Hsrt Htxt).
  - eexists _, _, _. split; [reflexivity|]. simpl. split; [exact Hj|]. split.
    + intros Ha Hw. apply String.eqb_neq in Ha, Hw.
      unfold external_calls in Hout. rewrite Ha, Hw in Hout. discriminate.
    + intros _ v Hv. rewrite Hout in Hv. discriminate.
Qed.

Lemma failure_detail_witness :
  ∃ st' j',
    process_run engines_cancelled 9 sample_id 0 sample_processing = (st', inr tt)
    ∧ objects st' !! 0%nat = Some j'
    ∧ error_message j' = Some "Transcription was cancelled".
Proof.
  destruct (failure_detail_by_cause engines_cancelled 9 sample_id 0 sample_processing
              (set_status processing sample_job))
    as (st' & res & j' & Hrun & Hj' & _ & Hknown); [vm_compute; reflexivity|].
  destruct (Hknown (or_introl eq_refl) (PyInt (-1))) as (-> & Hc & _);
    [vm_compute; reflexivity|].
  exists st', j'. split; [exact Hrun|]. split; [exact Hj'|].
  apply Hc. reflexivity.
Defined.

(** X12. The [model] form field has no effect on [transcribe_file]: the
    response and the resulting state are the same whatever value the
    field has, or whether it is there at all. *)
Theorem model_field_is_ignored (secure_filename : string → string)
    (file : option string) (form : gmap string string) (uuid_file uuid_job : string)
    (now : Z) (m : string) (st : server) :
  transcribe_file secure_filename
    (Request file (<["model" := m]> form) uuid_file uuid_job now) st
  = transcribe_file secure_filename (Request file form uuid_file uuid_job now) st
  ∧ transcribe_file secure_filename
      (Request file (delete "model" form) uuid_file uuid_job now) st
    = transcribe_file secure_filename (Request file form uuid_file uuid_job now) st.
Proof.
  unfold transcribe_file, form_params, form_get, get_next_job_id. simpl.
  rewrite !lookup_insert_ne, !lookup_delete_ne by done.
  split.
  - destruct file as [f|]; [|done]. destruct (String.eqb f ""); [done|].
    destruct (negb (allowed_file f)); [done|].
    by destruct (<["model":=m]> form !! "model"), (form !! "model").
  - destruct file as [f|]; [|done]. destruct (String.eqb f ""); [done|].
    destruct (negb (allowed_file f)); [done|].
    by destruct (delete "model" form !! "model"), (form !! "model").
Qed.

(** X13. Only the text after the last dot of a file name decides whether
    the file is allowed, and it is compared without regard to case: a
    name [base.e] whose [e] has no dot is allowed exactly when [e]
    lower-cased (as [str.lower] does it, U+212A KELVIN SIGN becoming k)
    is one of the fourteen extensions, whatever [base] is; a name without
    any dot is never allowed. *)
Theorem last_extension_decides (base e : string) :
  Str.lacks "." e →
  (allowed_file (base ++ "." ++ e) = true ↔ Str.lower e ∈ extensions)
  ∧ (allowed_file e = false).
Proof.
  intros He. split.
  - rewrite allowed_file_extensions. unfold file_ext.
    change ("." ++ e) with (String "." e). by rewrite rsplit1_app.
  - destruct (allowed_file e) eqn:Ha; [|done].
    apply allowed_file_extensions in Ha. unfold file_ext in Ha.
    apply rsplit1_None in He. rewrite He in Ha.
    apply (bool_decide_eq_true_2 ("" ∈ extensions)) in Ha. vm_compute in Ha. done.
Qed.

Lemma last_extension_decides_witness :
  allowed_file ("holiday.2024.final" ++ "." ++ "MoV") = true
  ∧ allowed_file ("movie" ++ "." ++ kelvin_ext) = true
  ∧ allowed_file ("movie.mp4" ++ "." ++ "exe") = false
  ∧ allowed_file "MoV" = false.
Proof.
  destruct (last_extension_decides "holiday.2024.final" "MoV") as [[_ Hmov] Hbare];
    [vm_compute; repeat split; discriminate|].
  destruct (last_extension_decides "movie" kelvin_ext) as [[_ Hkel] _];
    [vm_compute; repeat split; discriminate|].
  destruct (last_extension_decides "movie.mp4" "exe") as [[Hexe _] _];
    [vm_compute; repeat split; discriminate|].
  split; [|split; [|split; [|exact Hbare]]].
  - apply Hmov. apply (bool_decide_eq_true_1 (Str.lower "MoV" ∈ extensions)).
    vm_compute. reflexivity.
  - apply Hkel. apply (bool_decide_eq_true_1 (Str.lower kelvin_ext ∈ extensions)).
    vm_compute. reflexivity.
  - destruct (allowed_file ("movie.mp4" ++ "." ++ "exe")) eqn:E; [|done].
    specialize (Hexe eq_refl).
    apply (bool_decide_eq_true_2 (Str.lower "exe" ∈ extensions)) in Hexe.
    vm_compute in Hexe. done.
Defined.

(** X14. When a job is deleted while its worker is running, the worker's
    completion is invisible: it re-registers nothing and changes no
    registered record. *)
Theorem finish_after_delete_is_invisible (secure_filename : string → string)
    (st : server) (tid : nat) (id : string) (l : nat) (b : backends) (now : Z) :
  reachable secure_filename st →
  workers st !! tid = Some (Running id l) →
  transcription_jobs st !! id = None →
  transcription_jobs (worker_finish tid b now st) = transcription_jobs st
  ∧ ∀ id', lookup_job (worker_finish tid b now st) id' = lookup_job st id'.
Proof.
  intros Hr Hw Hnone. apply reachable_inv in Hr.
  destruct (inv_running _ Hr _ _ _ Hw) as (j & Hj & Hid & _).
  unfold worker_finish. rewrite Hw.
  destruct (process_run_cases b now id l st j Hj)
    as [(_ & res & _ & _ & ->)|(e & _ & _ & ->)]; [|done].
  split; [reflexivity|]. intros id'. unfold lookup_job. simpl.
  destruct (transcription_jobs st !! id') as [l'|] eqn:Hl'; [|done].
  destruct (inv_reg _ Hr _ _ Hl') as (j' & Hj' & Hid' & _).
  rewrite lookup_insert_ne; [done|]. intros <-.
  assert (id' = id) as -> by congruence. congruence.
Qed.

Lemma finish_after_delete_witness :
  transcription_jobs (worker_finish 0 engines_ok 9 sample_deleted)
  = transcription_jobs sample_deleted
  ∧ ∀ id', lookup_job (worker_finish 0 engines_ok 9 sample_deleted) id'
           = lookup_job sample_deleted id'.
Proof.
  apply (finish_after_delete_is_invisible keep_name sample_deleted 0 sample_id 0).
  - exists [OpTranscribe sample_request; OpWorkerStart 0; OpDelete sample_id].
    reflexivity.
  - vm_compute. reflexivity.
  - vm_compute. reflexivity.
Defined.

(** X16. In a reachable state the download handler only ever sends a
    file of a [completed] job, and the path it sends is the job's
    declared subtitle path (for kind [srt]) or text path (for kind
    [txt]): a path directly inside the output folder that exists on
    disk. *)
Theorem download_sends_only_outputs (secure_filename : string → string)
    (st st' : server) (id k p : string) :
  reachable secure_filename st →
  download_file id k st = (st', SendFile p) →
  st' = st
  ∧ ∃ j, lookup_job st id = Some j ∧ status j = completed
      ∧ (k = "srt" ∧ p = path_join OUTPUT_FOLDER (path_stem (filename j) ++ ".srt")
         ∨ k = "txt" ∧ p = path_join OUTPUT_FOLDER (path_stem (filename j) ++ ".txt"))
      ∧ in_folder OUTPUT_FOLDER p = true
      ∧ path_exists (files st) p = true.
Proof.
  intros Hr Hd. pose proof (reachable_linked _ _ Hr) as Hlk.
  unfold download_file, lookup_job in *.
  destruct (transcription_jobs st !! id) as [l|] eqn:Hl; [|discriminate].
  destruct (objects st !! l) as [j|] eqn:Hj; [|discriminate].
  destruct (bool_decide (status j = completed)) eqn:Hs; [|discriminate].
  apply bool_decide_eq_true in Hs. simpl in Hd.
  destruct (shape_completed _ (lk_shape _ Hlk _ _ Hj) Hs) as [_ Houts].
  destruct (String.eqb k "srt") eqn:Ek.
  - apply String.eqb_eq in Ek. subst k. simpl in Hd.
    rewrite Houts in Hd. unfold outputs_of in Hd.
    change ("srt" ++ "_file") with "srt_file" in Hd. rewrite lookup_insert_eq in Hd.
    destruct (path_exists (files st) (srt_path j)) eqn:He; [|discriminate].
    injection Hd as <- <-. split; [done|]. exists j. split; [done|]. split; [done|].
    split; [by left|]. split; [|done].
    apply output_path_in_folder; [apply path_stem_lacks_slash | | discriminate].
    vm_compute. repeat split; discriminate.
  - destruct (String.eqb k "txt") eqn:Et; [|discriminate].
    apply String.eqb_eq in Et. subst k. simpl in Hd.
    rewrite Houts in Hd. unfold outputs_of in Hd.
    change ("txt" ++ "_file") with "txt_file" in Hd.
    rewrite lookup_insert_ne, lookup_insert_eq in Hd by done.
    destruct (path_exists (files st) (txt_path j)) eqn:He; [|discriminate].
    injection Hd as <- <-. split; [done|]. exists j. split; [done|]. split; [done|].
    split; [by right|]. split; [|done].
    apply output_path_in_folder; [apply path_stem_lacks_slash | | discriminate].
    vm_compute. repeat split; discriminate.
Qed.

Lemma download_sends_only_outputs_witness :
  in_folder OUTPUT_FOLDER "outputs/abc_talk.srt" = true
  ∧ path_exists (files sample_completed) "outputs/abc_talk.srt" = true.
Proof.
  destruct (download_sends_only_outputs keep_name sample_completed sample_completed
              sample_id "srt" "outputs/abc_talk.srt") as (_ & j & _ & _ & _ & Hin & Hex).
  - exists [OpTranscribe sample_request; OpWorkerStart 0; OpWorkerFinish 0 engines_ok 9].
    reflexivity.
  - vm_compute. reflexivity.
  - split; [exact Hin | exact Hex].
Defined.

(** X17. A job whose worker finishes with success can be downloaded at
    once: if the engine call reports success and both declared files are
    on disk when the worker checks, then right after the worker's step
    the download handler sends the subtitle path for kind [srt] and the
    text path for kind [txt]. *)
Theorem finished_job_downloads (secure_filename : string → string)
    (st : server) (tid : nat) (id : string) (l : nat) (j : TranscriptionJob)
    (b : backends) (now : Z) (v : pyval) :
  reachable secure_filename st →
  workers st !! tid = Some (Running id l) →
  lookup_job st id = Some j →
  (external_calls b j (files st)).2 = inr v →
  reports_success v = true →
  path_exists (external_calls b j (files st)).1 (srt_path j) = true →
  path_exists (external_calls b j (files st)).1 (txt_path j) = true →
  download_file id "srt" (worker_finish tid b now st)
  = (worker_finish tid b now st, SendFile (srt_path j))
  ∧ download_file id "txt" (worker_finish tid b now st)
    = (worker_finish tid b now st, SendFile (txt_path j)).
Proof.
  intros Hr Hw Hj Hv Hs Hsrt Htxt.
  pose proof (reachable_inv _ _ Hr) as Hinv.
  pose proof (reachable_linked _ _ Hr) as Hlk.
  unfold lookup_job in Hj.
  destruct (transcription_jobs st !! id) as [l0|] eqn:Hl0; [|discriminate].
  assert (l0 = l) as -> by (eapply running_object; eauto).
  unfold worker_finish. rewrite Hw.
  destruct (process_run_cases b now id l st j Hj)
    as [(_ & res & _ & Hpost & ->)|(e & Hout & _)]; [|congruence].
  unfold adapter_post in Hpost. rewrite Hv, Hs, Hsrt, Htxt in Hpost. simpl in Hpost.
  subst res.
  unfold download_file. simpl. rewrite Hl0, !lookup_insert_eq. simpl.
  unfold outputs_of.
  change ("srt" ++ "_file") with "srt_file". change ("txt" ++ "_file") with "txt_file".
  rewrite lookup_insert_eq, lookup_insert_ne, lookup_insert_eq by done.
  by rewrite Hsrt, Htxt.
Qed.

Lemma finished_job_downloads_witness :
  download_file sample_id "srt" (worker_finish 0 engines_ok 9 sample_processing)
  = (worker_finish 0 engines_ok 9 sample_processing, SendFile "outputs/abc_talk.srt")
  ∧ download_file sample_id "txt" (worker_finish 0 engines_ok 9 sample_processing)
    = (worker_finish 0 engines_ok 9 sample_processing, SendFile "outputs/abc_talk.txt").
Proof.
  apply (finished_job_downloads keep_name sample_processing 0 sample_id 0
           (set_status processing sample_job) engines_ok 9
           (PyStr "outputs/abc_talk.srt")).
  - exists [OpTranscribe sample_request; OpWorkerStart 0]. reflexivity.
  - vm_compute. reflexivity.
  - vm_compute. reflexivity.
  - vm_compute. reflexivity.
  - reflexivity.
  - vm_compute. reflexivity.
  - vm_compute. reflexivity.
Defined.

(** X18. The file sweep and the record sweep are independent: when the
    subtitle file of a registered, completed job is older than 24 hours
    and can be removed while the job's end time is not older than 24
    hours, [cleanup_old_files] removes the file and keeps the record, and
    a download of kind [srt] then answers 404. *)
Theorem sweep_can_orphan_a_completed_job (secure_filename : string → string)
    (st : server) (now : Z) (id : string) (j : TranscriptionJob) (e : entry) :
  reachable secure_filename st →
  lookup_job st id = Some j → status j = completed →
  expired now 24 j = false →
  files st !! srt_path j = Some e →
  older now 24 (ctime e) = true → removable e = true →
  lookup_job (cleanup_old_files now st).1 id = Some j
  ∧ files (cleanup_old_files now st).1 !! srt_path j = None
  ∧ download_file id "srt" (cleanup_old_files now st).1
    = ((cleanup_old_files now st).1, Error 404 "File not found on disk").
Proof.
  intros Hr Hj Hs Hexp He Hold Hrm.
  pose proof (reachable_linked _ _ Hr) as Hlk.
  unfold cleanup_old_files.
  destruct (cleanup_sweep_spec 24 now st) as (d' & nf & -> & _ & Hfiles). simpl.
  unfold lookup_job in Hj.
  destruct (transcription_jobs st !! id) as [l|] eqn:Hl; [|discriminate].
  assert (foldl (fun m i => delete i m) (transcription_jobs st)
                (jobs_to_remove now 24 st) !! id = Some l) as Hkept.
  { rewrite lookup_foldl_delete, Hl. rewrite bool_decide_eq_false_2; [done|].
    intros Hin. apply jobs_to_remove_elem in Hin as (l' & j' & Hl' & Hj' & He').
    congruence. }
  assert (d' !! srt_path j = None) as Hgone.
  { rewrite Hfiles, He. unfold swept. rewrite Hold, Hrm.
    unfold srt_path. rewrite output_path_in_folder;
      [by rewrite orb_true_r | apply path_stem_lacks_slash | | discriminate].
    vm_compute. repeat split; discriminate. }
  unfold lookup_job, download_file. simpl. rewrite Hkept, Hj.
  split; [done|]. split; [done|].
  rewrite bool_decide_eq_true_2 by done. simpl.
  destruct (shape_completed _ (lk_shape _ Hlk _ _ Hj) Hs) as [_ ->].
  unfold outputs_of. change ("srt" ++ "_file") with "srt_file".
  rewrite lookup_insert_eq. unfold path_exists. rewrite Hgone.
  by rewrite bool_decide_eq_false_2 by (intros [? ?]; discriminate).
Qed.

Lemma sweep_can_orphan_witness :
  lookup_job (cleanup_old_files 86400000007 sample_completed).1 sample_id
  = Some sample_job_done
  ∧ files (cleanup_old_files 86400000007 sample_completed).1 !! "outputs/abc_talk.srt"
    = None
  ∧ download_file sample_id "srt" (cleanup_old_files 86400000007 sample_completed).1
    = ((cleanup_old_files 86400000007 sample_completed).1,
       Error 404 "File not found on disk").
Proof.
  apply (sweep_can_orphan_a_completed_job keep_name sample_completed 86400000007
           sample_id sample_job_done (Entry 5 true)).
  - exists [OpTranscribe sample_request; OpWorkerStart 0; OpWorkerFinish 0 engines_ok 9].
    reflexivity.
  - vm_compute. reflexivity.
  - reflexivity.
  - vm_compute. reflexivity.
  - vm_compute. reflexivity.
  - vm_compute. reflexivity.
  - reflexivity.
Defined.

(** X19. A job identifier records the counter value it was built from
    and the first eight characters of the uuid: two identifiers are equal
    exactly when both agree. *)
Theorem job_name_determines_counter (n m : nat) (h k : string) :
  job_name n h = job_name m k ↔ n = m ∧ Str.take 8 h = Str.take 8 k.
Proof.
  split.
  - intros E. pose proof (job_name_inj n m h k E) as ->. split; [done|].
    unfold job_name in E.
    apply (inj (String.app "job_")) in E. apply (inj (String.app (Str.dec m))) in E.
    by apply (inj (String.app "_")) in E.
  - intros [-> Ht]. unfold job_name. by rewrite Ht.
Qed.

(** X20. Identifiers are numbered in the order in which requests are
    accepted: after any run the counter equals the number of identifiers
    handed out, and the k-th of them (counting from zero) starts with
    [job_] followed by k+1. *)
Theorem identifiers_numbered_in_order (secure_filename : string → string)
    (ops : list op) :
  length (issued_ids (run secure_filename ops initial []).2)
  = job_counter (run secure_filename ops initial []).1
  ∧ ∀ k i, issued_ids (run secure_filename ops initial []).2 !! k = Some i →
           ∃ h, i = job_name (S k) h.
Proof.
  apply run_numbered; [apply inv_initial | reflexivity |].
  intros k i H. by destruct k.
Qed.

Example identifiers_of_three_requests :
  issued_ids (run keep_name
                [OpTranscribe sample_request; OpTranscribe text_request;
                 OpTranscribe bare_request; OpDelete sample_id;
                 OpTranscribe mixed_case_request] initial []).2
  = ["job_1_01234567"; "job_2_01234567"; "job_3_01234567"].
Proof. vm_compute. reflexivity. Qed.

(** X21. Once the worker thread of a job has ended, no later step changes
    the job's record: whenever the identifier resolves afterwards, it
    resolves to the same record. In particular a record that a fault
    outside [Exception] left [processing] stays [processing] for as long
    as it is registered. *)
Theorem ended_worker_record_is_final (secure_filename : string → string)
    (st : server) (ops : list op) (log : list response) (tid : nat) (id : string)
    (j j' : TranscriptionJob) :
  reachable secure_filename st →
  workers st !! tid = Some (Finished id) →
  lookup_job st id = Some j →
  lookup_job (run secure_filename ops st log).1 id = Some j' →
  j' = j.
Proof.
  intros Hr. apply ended_registered.
  - exact (reachable_inv _ _ Hr).
  - exact (reachable_linked _ _ Hr).
Qed.

Lemma ended_worker_record_witness :
  lookup_job (run keep_name [OpReport 0 "Converting" 50; OpWorkerStart 0;
                             OpWorkerFinish 0 engines_ok 20; OpCleanup 1000000000000;
                             OpTranscribe bare_request]
                  sample_exited []).1 sample_id
  = Some (set_status processing sample_job).
Proof.
  assert (∃ j', lookup_job (run keep_name
                   [OpReport 0 "Converting" 50; OpWorkerStart 0;
                    OpWorkerFinish 0 engines_ok 20; OpCleanup 1000000000000;
                    OpTranscribe bare_request]
                   sample_exited []).1 sample_id = Some j') as [j' Hj']
    by (eexists; vm_compute; reflexivity).
  rewrite Hj'. f_equal.
  apply (ended_worker_record_is_final keep_name sample_exited
           [OpReport 0 "Converting" 50; OpWorkerStart 0;
            OpWorkerFinish 0 engines_ok 20; OpCleanup 1000000000000;
            OpTranscribe bare_request] [] 0 sample_id).
  - exists [OpTranscribe sample_request; OpWorkerStart 0; OpWorkerFinish 0 engines_exit 9].
    reflexivity.
  - vm_compute. reflexivity.
  - vm_compute. reflexivity.
  - exact Hj'.
Defined.
